(** * beam_py: the pulsar beam synthesizer and the rotating vector model

    A shallow embedding of [src/rvm.py] and [src/generateBeam.py].

    Floating-point numbers are idealised as real numbers: a finite float
    is a real, rounding and overflow are not modelled.  The special values
    that numpy's division produces on a zero divisor (infinities and NaN)
    are kept, since the position-angle code can reach them.  Dense numpy
    arrays of rank two are functions of the (row, column) index together
    with their shape; every numpy operation used on them is elementwise. *)

From Stdlib Require Import String Reals Lra Lia ZArith Bool List Permutation.
Import ListNotations.
Open Scope R_scope.

(** A Python [int]. *)
Abbreviation int := BinNums.Z (only parsing).

(** ** numpy and Python primitives used by the two programs *)

Module Numpy.

(** A float64 as the code can observe it. *)
Inductive npfloat : Type :=
| Fin (r : R)
| PInf
| NInf
| NaN.

Definition Rltb (a b : R) : bool := if Rlt_dec a b then true else false.

(** [a / b] on two finite float64 scalars.  numpy does not raise on a zero
    divisor: it returns an infinity, or NaN for [0 / 0].  The sign of a
    float zero is not tracked by the real-number idealisation; a zero
    divisor is read as [+0.0]. *)
Definition np_div (a b : R) : npfloat :=
  if Req_dec_T b 0 then
    if Req_dec_T a 0 then NaN
    else if Rlt_dec 0 a then PInf else NInf
  else Fin (a / b).

Definition np_arctan (v : npfloat) : npfloat :=
  match v with
  | Fin r => Fin (atan r)
  | PInf => Fin (PI / 2)
  | NInf => Fin (- (PI / 2))
  | NaN => NaN
  end.

Definition np_neg (v : npfloat) : npfloat :=
  match v with
  | Fin r => Fin (- r)
  | PInf => NInf
  | NInf => PInf
  | NaN => NaN
  end.

Definition np_add (a b : npfloat) : npfloat :=
  match a, b with
  | NaN, _ | _, NaN => NaN
  | Fin x, Fin y => Fin (x + y)
  | PInf, NInf | NInf, PInf => NaN
  | PInf, _ | _, PInf => PInf
  | NInf, _ | _, NInf => NInf
  end.

Definition np_sub (a b : npfloat) : npfloat := np_add a (np_neg b).

(** Comparisons: anything compared with NaN is false. *)
Definition np_lt (a b : npfloat) : bool :=
  match a, b with
  | NaN, _ | _, NaN => false
  | Fin x, Fin y => Rltb x y
  | NInf, NInf => false
  | NInf, _ => true
  | _, PInf => match a with PInf => false | _ => true end
  | _, _ => false
  end.

Definition np_gt (a b : npfloat) : bool := np_lt b a.

Definition deg2rad (x : R) : R := x * (PI / 180).

Definition rad2deg (x : R) : R := x * (180 / PI).

Definition np_rad2deg (v : npfloat) : npfloat :=
  match v with
  | Fin r => Fin (rad2deg r)
  | other => other
  end.

(** [np.linspace(start, stop, num, endpoint=True)]. *)
Definition linspace (start stop : R) (num : nat) : list R :=
  map (fun i => start + INR i * ((stop - start) / INR (num - 1))) (seq 0 num).

(** [np.array(v, dtype=int)] on one finite float: truncation toward zero. *)
Definition astype_int (r : R) : Z :=
  if Rle_dec 0 r then Int_part r else (- Int_part (- r))%Z.

(** [np.max] of a sequence; raises on an empty one. *)
Definition np_max (l : list R) : option R :=
  match l with
  | [] => None
  | x :: t => Some (fold_left Rmax t x)
  end.

(** [np.roll(a, shift)] on a rank-one array: element [i] moves to position
    [(i + shift) mod n]. *)
Definition roll {A : Type} (a : list A) (shift : Z) : list A :=
  let n := length a in
  match n with
  | O => a
  | _ =>
    let s := Z.to_nat (shift mod Z.of_nat n) in
    skipn (n - s) a ++ firstn (n - s) a
  end.

(** Python sequence indexing [l[i]]: a negative index counts from the end,
    an index out of range raises (here: [None]). *)
Definition py_index {A : Type} (l : list A) (i : Z) : option A :=
  let n := Z.of_nat (length l) in
  if (0 <=? i)%Z then nth_error l (Z.to_nat i)
  else if (0 <=? n + i)%Z then nth_error l (Z.to_nat (n + i))
  else None.

(** [range(n)] for a Python int. *)
Definition py_range (n : Z) : list Z :=
  map Z.of_nat (seq 0 (Z.to_nat n)).

End Numpy.

Import Numpy.

(** The exception monad: [None] is a raised Python exception. *)
Definition bind {A B : Type} (m : option A) (k : A -> option B) : option B :=
  match m with
  | Some a => k a
  | None => None
  end.

Notation "x <- m ;; k" := (bind m (fun x => k))
  (at level 61, m at next level, right associativity).

(** A Python [for] loop over a list whose body may raise. *)
Fixpoint for_each {A S : Type} (body : S -> A -> option S) (l : list A) (s : S)
  : option S :=
  match l with
  | [] => Some s
  | a :: t => s' <- body s a ;; for_each body t s'
  end.

(** ** src/rvm.py *)

Module Rvm.

(** Lines 25-27.  The loop rebinds [angRad] to the conversion of the whole
    tuple at every iteration; before the loop the name is unbound. *)
Definition convert_angles (angles : list R) : option (list R) :=
  fold_left (fun (_ : option (list R)) (_ : R) => Some (map deg2rad angles))
            angles None.

Definition rvm_numer (alpha phi0 phi : R) : R :=
  sin alpha * sin (phi - phi0).

Definition rvm_denom (alpha zeta phi0 phi : R) : R :=
  sin zeta * cos alpha - cos zeta * sin alpha * cos (phi - phi0).

(** Line 41: [psi = psi0 + np.arctan(numer/denom)]. *)
Definition rvm_psi (alpha zeta phi0 psi0 phi : R) : npfloat :=
  np_add (Fin psi0)
         (np_arctan (np_div (rvm_numer alpha phi0 phi)
                            (rvm_denom alpha zeta phi0 phi))).

(** Lines 44-48: the two successive range tests. *)
Definition restrict_psi (psi : npfloat) : npfloat :=
  let psi1 :=
    if np_lt psi (Fin (- PI / 2)) then np_add psi (Fin PI) else psi in
  if np_gt psi1 (Fin (PI / 2)) then np_sub psi1 (Fin PI) else psi1.

(** Lines 37-51: the body of the loop for the sample [x = xprof[point-1]]. *)
Definition rvm_point (alpha zeta phi0 psi0 x : R) : npfloat :=
  let phi := deg2rad x in
  np_rad2deg (restrict_psi (rvm_psi alpha zeta phi0 psi0 phi)).

Definition rvm_loop (alpha zeta phi0 psi0 : R) (xprof : list R)
  (points : list nat) (allpsi : list npfloat) : list npfloat :=
  fold_left
    (fun allpsi point =>
       allpsi ++ [rvm_point alpha zeta phi0 psi0 (nth (point - 1) xprof 0)])
    points allpsi.

(** [rvm(alpha, beta, phi0, psi0, psi, xprof)].  The parameter [psi] is
    overwritten before it is read. *)
Definition rvm (alpha beta phi0 psi0 psi : R) (xprof : list R) : list npfloat :=
  let angles := [alpha; beta; phi0; psi0] in
  let angRad := convert_angles angles in
  let zeta := alpha + beta in
  let numpts := length xprof in
  let points := seq 1 numpts in
  rvm_loop alpha zeta phi0 psi0 xprof points [].

(** The variant the refinement statement compares with: the same function
    with lines 25-27 (the conversion loop) deleted. *)
Definition rvm_without_conversion (alpha beta phi0 psi0 psi : R)
  (xprof : list R) : list npfloat :=
  let zeta := alpha + beta in
  let numpts := length xprof in
  let points := seq 1 numpts in
  rvm_loop alpha zeta phi0 psi0 xprof points [].

(** The position angle of one sample written out on the raw inputs: only
    [x] goes through [deg2rad]. *)
Definition rvm_raw_degrees (alpha beta phi0 psi0 x : R) : npfloat :=
  np_rad2deg
    (restrict_psi
       (np_add (Fin psi0)
          (np_arctan
             (np_div
                (sin alpha * sin (deg2rad x - phi0))
                (sin (alpha + beta) * cos alpha
                 - cos (alpha + beta) * sin alpha * cos (deg2rad x - phi0)))))).

End Rvm.

(** ** The interface of the module [beamModel] (imported as [bm])

    [beamModel.py] is outside the two source files; its functions enter as
    the fields of an interface, with the argument order of their call
    sites. *)

Class BeamModel : Type := {
  patch_width : R -> list R -> list R;
  los : R -> R -> nat -> list R * list R * list R;
  patch_center :
    R -> list R -> Z -> Z -> option string -> list (list R) * list (list R);
  aberration : list R -> R -> R -> list R * list R;
  emission_height : R -> Z -> Z -> option R -> option R -> list R;
  height_f : list R -> R -> list R;
  find_width : list R -> R;
  sc_time_array : list R -> R -> Z -> list R;
  sc_time : R -> R -> Z -> R;
  pulsetrain : nat -> nat -> list R -> list R;
  broadening : R -> R -> nat -> list R;
  scatter : list R -> list R -> list R;
  extractpulse : list R -> nat -> nat -> list R;
  find_peak : list R -> R;
  noise_rms : R -> R -> R;
  add_noise : list (list R) -> R -> Z -> nat -> list (list R);
  find_phase_bin : list R -> Z;
  find_delta_dm :
    R -> list (list R) -> list R -> Z -> Z -> R -> R -> Z -> list R;
  delay : R -> R -> R -> R -> Z;
  avg_prof : list (list R) -> list R
}.

(** ** src/generateBeam.py, the function [generateBeam] *)

Module Beam.

(** A dense rank-two array of shape [(res, res)], by (row, column). *)
Definition array2 : Type := nat -> nat -> R.

Definition xmin : R := -180.
Definition xmax : R := 180.
Definition res : nat := 1000.
Definition ymin : R := -180.
Definition ymax : R := 180.
Definition dx : R := (xmax - xmin) / INR res.
Definition dy : R := (ymax - ymin) / INR res.
Definition x : list R := linspace xmin xmax res.
Definition y : list R := linspace ymin ymax res.

(** [X, Y = np.meshgrid(x, y)]: [X[i, j] = x[j]] and [Y[i, j] = y[i]]. *)
Definition X : array2 := fun _ j => nth j x 0.
Definition Y : array2 := fun i _ => nth i y 0.

Definition zeros_like (_ : array2) : array2 := fun _ _ => 0.

Definition peakAmp : R := 1.

(** Lines 82-83 on one cell of [distance]: the two masked assignments. *)
Definition cutoff (d : R) : R :=
  let d1 := if Rgt_dec d 3 then 0 else d in
  if Req_dec_T d1 0 then d1 else peakAmp.

(** Lines 81-83.  The division is the one of the reals; for a zero width
    numpy divides by zero and yields inf or NaN, which the field of reals
    does not hold: the statements about the field take a positive
    width. *)
Definition distance_mask (sigmax : R) (pc : R * R) : array2 :=
  fun i j =>
    cutoff (sqrt ((X i j - fst pc) ^ 2 + (Y i j - snd pc) ^ 2) / sigmax).

(** Lines 81-87: the body of the loop over the patch centres of the
    component [cid].  The mask is computed about [pc] before the branch on
    [do_ab]; the Gaussian is centred on [pc] moved by the aberration
    offsets when [do_ab] is set.  The exponent divides by [2 * sigma ^ 2]
    over the reals; for a zero width numpy puts NaN into the field, which
    the reals do not hold: the statements about the field values take a
    positive width. *)
Definition patch_update (do_ab : option string) (ab_xofset ab_yofset : list R)
  (cid : nat) (sigmax sigmay : R) (Z : array2) (pc : R * R) : option array2 :=
  let distance := distance_mask sigmax pc in
  match do_ab with
  | None =>
    Some (fun i j =>
            Z i j
            + distance i j
              * exp (- ((X i j - fst pc) ^ 2 / (2 * sigmax ^ 2)
                        + (Y i j - snd pc) ^ 2 / (2 * sigmay ^ 2))))
  | Some _ =>
    abx <- nth_error ab_xofset cid ;;
    aby <- nth_error ab_yofset cid ;;
    Some (fun i j =>
            Z i j
            + distance i j
              * exp (- ((X i j - fst pc - abx) ^ 2 / (2 * sigmax ^ 2)
                        + (Y i j - snd pc - aby) ^ 2 / (2 * sigmay ^ 2))))
  end.

(** Lines 66-87: the body of the loop over [enumerate(heights)]. *)
Definition component_update (do_ab : option string)
  (patchwidths : list R) (centerx centery : list (list R))
  (ab_xofset ab_yofset : list R) (Z : array2) (cid : nat) : option array2 :=
  sigmax <- nth_error patchwidths cid ;;
  sigmay <- nth_error patchwidths cid ;;
  patchCenterX <- nth_error centerx cid ;;
  patchCenterY <- nth_error centery cid ;;
  for_each (patch_update do_ab ab_xofset ab_yofset cid sigmax sigmay)
           (combine patchCenterX patchCenterY) Z.

(** An index along an axis of length [n]: numpy accepts [-n <= i < n]. *)
Definition axis_index (n : nat) (i : Z) : option nat :=
  if ((0 <=? i) && (i <? Z.of_nat n))%Z then Some (Z.to_nat i)
  else if ((- Z.of_nat n <=? i) && (i <? 0))%Z then
         Some (Z.to_nat (i + Z.of_nat n))
  else None.

(** Two rank-one index arrays are broadcast against each other. *)
Definition broadcast (a b : list Z) : option (list (Z * Z)) :=
  if Nat.eqb (length a) (length b) then Some (combine a b)
  else match a, b with
       | [i], _ => Some (map (fun j => (i, j)) b)
       | _, [j] => Some (map (fun i => (i, j)) a)
       | _, _ => None
       end.

Fixpoint gather_pairs (Z : array2) (idx : list (int * int)) : option (list R) :=
  match idx with
  | [] => Some []
  | (ix, iy) :: t =>
    i <- axis_index res ix ;;
    j <- axis_index res iy ;;
    rest <- gather_pairs Z t ;;
    Some (Z i j :: rest)
  end.

(** Line 92: [Z[ZxIdx, ZyIdx]]. *)
Definition gather (Z : array2) (ZxIdx ZyIdx : list int) : option (list R) :=
  idx <- broadcast ZxIdx ZyIdx ;;
  gather_pairs Z idx.

(** Lines 90-91.  The quotient is taken over the reals; the float quotient
    differs from it by rounding, and next to the upper edge of the grid
    that rounding can reach 1000. *)
Definition x_index (xl : R) : Z := astype_int ((xl - xmin) / dx).
Definition y_index (yl : R) : Z := astype_int ((yl - ymin) / dy).

Definition generateBeam `{BeamModel} (P alpha beta freq dm : R)
  (heights : list R) (npatch : Z) (snr : option R) (do_ab : option string)
  (iseed : Z) (fanBeam : option string) : option (list R * array2) :=
  let Z := zeros_like X in
  let patchwidths := patch_width P heights in
  let xlos := fst (fst (los alpha beta res)) in
  let ylos := snd (fst (los alpha beta res)) in
  let centerx := fst (patch_center P heights npatch iseed fanBeam) in
  let centery := snd (patch_center P heights npatch iseed fanBeam) in
  let ab_xofset := fst (aberration heights P alpha) in
  let ab_yofset := snd (aberration heights P alpha) in
  Z <- for_each (component_update do_ab patchwidths centerx centery
                                  ab_xofset ab_yofset)
                (seq 0 (length heights)) Z ;;
  let ZxIdx := map x_index xlos in
  let ZyIdx := map y_index ylos in
  prof <- gather Z ZxIdx ZyIdx ;;
  Some (prof, Z).

(** What the synthesizer is described to add for one patch at a cell with
    coordinates [(Xv, Yv)]: the Gaussian about the effective centre
    [(cx, cy)] times the indicator of the closed disk of radius [3 sigma]
    about that same centre. *)
Definition described_contribution (sigma cx cy Xv Yv : R) : R :=
  (if Rle_dec (sqrt ((Xv - cx) ^ 2 + (Yv - cy) ^ 2)) (3 * sigma) then 1 else 0)
  * exp (- ((Xv - cx) ^ 2 / (2 * sigma ^ 2) + (Yv - cy) ^ 2 / (2 * sigma ^ 2))).

End Beam.

(** ** src/generateBeam.py, the script body *)

Module Main.

Import Beam.

(** The parsed command line (lines 102-137). *)
Record Args : Type := {
  arg_p : R;
  arg_nc : int;
  arg_npatch : int;
  arg_iseed : int;
  arg_hmin : option R;
  arg_hmax : option R;
  arg_alpha : R;
  arg_beta : R;
  arg_snr : option R;
  arg_dm : R;
  arg_do_ab : option string;
  arg_nch : int;
  arg_min_freq : R;
  arg_chbw : R;
  arg_scatter : option string;
  arg_doFan : option string;
  arg_outfile : option string
}.

(** [np.linspace(start, stop, num)] with a Python int for [num]: a negative
    count raises. *)
Definition linspace_int (start stop : R) (num : int) : option (list R) :=
  if (num <? 0)%Z then None else Some (linspace start stop (Z.to_nat num)).

(** The lists the per-frequency loop appends to. *)
Record Channels : Type := {
  w10 : list R;
  prof : list (list R);
  beam : list array2
}.

(** Lines 163-167, for the channel frequency [f = freq[i]]. *)
Definition frequency_step `{BeamModel} (P alpha beta dm : R) (npatch : int)
  (snr : option R) (do_ab : option string) (iseed : int)
  (fanBeam : option string) (H : list R) (st : Channels) (f : R)
  : option Channels :=
  let heights := height_f H f in
  r <- generateBeam P alpha beta f dm heights npatch snr do_ab iseed fanBeam ;;
  let pr := fst r in
  let Z := snd r in
  Some {| w10 := w10 st ++ [find_width pr];
          prof := prof st ++ [pr];
          beam := beam st ++ [Z] |}.

(** Lines 162-167. *)
Definition profiles_per_frequency `{BeamModel} (P alpha beta dm : R)
  (npatch : int) (snr : option R) (do_ab : option string) (iseed : int)
  (fanBeam : option string) (H freq : list R) : option Channels :=
  for_each (frequency_step P alpha beta dm npatch snr do_ab iseed fanBeam H)
           freq {| w10 := []; prof := []; beam := [] |}.

(** Lines 183-187, for the channel [fid]. *)
Definition scatter_step `{BeamModel} (P dm : R) (iseed : int)
  (freq : list R) (train : list (list R)) (sc_prof : list (list R))
  (fid : nat) : option (list (list R)) :=
  f <- nth_error freq fid ;;
  let tau := sc_time f dm iseed in
  let bf := broadening tau P res in
  t <- nth_error train fid ;;
  let sc_train := scatter t bf in
  Some (sc_prof ++ [extractpulse sc_train 2 res]).

(** Lines 172-187: the scattering stage; returns [train] and [sc_prof]. *)
Definition scattering_stage `{BeamModel} (scr : option string) (P dm : R)
  (iseed : int) (freq : list R) (prof : list (list R))
  : option (list (list R) * list (list R)) :=
  let train := [] in
  let tau := sc_time_array freq dm iseed in
  match scr with
  | None => Some (train, prof)
  | Some _ =>
    train <- for_each (fun train pid =>
                         pr <- nth_error prof pid ;;
                         Some (train ++ [pulsetrain 3 res pr]))
                      (seq 0 (length prof)) train ;;
    sc_prof <- for_each (scatter_step P dm iseed freq train)
                        (seq 0 (length freq)) [] ;;
    Some (train, sc_prof)
  end.

(** Lines 192-199: the noise stage; returns [profile]. *)
Definition noise_stage `{BeamModel} (snr : option R) (iseed : int)
  (prof sc_prof : list (list R)) : option (list (list R)) :=
  peaks <- for_each (fun peaks j =>
                       s <- nth_error sc_prof j ;;
                       Some (peaks ++ [find_peak s]))
                    (seq 0 (length prof)) [] ;;
  match snr with
  | None => Some sc_prof
  | Some s =>
    m <- np_max peaks ;;
    let rms := noise_rms s m in
    Some (add_noise sc_prof rms iseed res)
  end.

(** Lines 212-215: the profiles shifted for one trial DM. *)
Definition shifted_profile `{BeamModel} (nch : int) (t_res : R)
  (freq : list R) (profile : list (list R)) (dm_trial : R)
  : option (list (list R)) :=
  for_each (fun shifted freq_id =>
              f_ref <- py_index freq (nch - 1)%Z ;;
              f <- py_index freq freq_id ;;
              let bin_shift := delay f_ref f dm_trial t_res in
              pr <- py_index profile freq_id ;;
              Some (shifted ++ [roll pr bin_shift]))
           (py_range (nch - 1)%Z) [].

(** Lines 211-217: returns [average_profile] and [peaks_of_average]. *)
Definition dm_search `{BeamModel} (nch : int) (t_res : R) (freq : list R)
  (profile : list (list R)) (dm_range : list R)
  : option (list (list R) * list R) :=
  for_each (fun st dm_id =>
              d <- nth_error dm_range dm_id ;;
              shifted <- shifted_profile nch t_res freq profile d ;;
              let average_profile := fst st ++ [avg_prof shifted] in
              a <- nth_error average_profile dm_id ;;
              Some (average_profile, snd st ++ [find_peak a]))
           (seq 0 (length dm_range)) ([], []).

(** Lines 220-221, for the index [i].  The inner [option] is the variable
    [best_dm], unbound until the first assignment. *)
Definition select_step (peaks_of_average dm_range : list R)
  (best_dm : option R) (i : nat) : option (option R) :=
  pk <- nth_error peaks_of_average i ;;
  m <- np_max peaks_of_average ;;
  if Req_dec_T pk m then
    d <- nth_error dm_range i ;;
    Some (Some d)
  else Some best_dm.

(** Lines 219-221. *)
Definition select_best_dm (peaks_of_average dm_range : list R)
  : option (option R) :=
  for_each (select_step peaks_of_average dm_range)
           (seq 0 (length peaks_of_average)) None.

(** Lines 145-228: the run up to the record appended to the output file,
    returned as its seven numbers. *)
Definition main `{BeamModel} (args : Args) : option (list R) :=
  let P := arg_p args in
  let ncomp := arg_nc args in
  let npatch := arg_npatch args in
  let iseed := arg_iseed args in
  let hmin := arg_hmin args in
  let hmax := arg_hmax args in
  let alpha := arg_alpha args in
  let beta := arg_beta args in
  let snr := arg_snr args in
  let dm := arg_dm args in
  let do_ab := arg_do_ab args in
  let nch := arg_nch args in
  let min_freq := arg_min_freq args in
  let chbw := arg_chbw args in
  let scr := arg_scatter args in
  let fanBeam := arg_doFan args in
  let fileName := arg_outfile args in
  let t_res := P / INR res in
  let phase := linspace (-180) 180 res in
  let max_freq := (IZR nch - 1) * chbw + min_freq in
  freq <- linspace_int min_freq max_freq nch ;;
  let H := emission_height P ncomp iseed hmin hmax in
  ch <- profiles_per_frequency P alpha beta dm npatch snr do_ab iseed
                               fanBeam H freq ;;
  sc <- scattering_stage scr P dm iseed freq (prof ch) ;;
  let sc_prof := snd sc in
  profile <- noise_stage snr iseed (prof ch) sc_prof ;;
  p_last <- py_index profile (nch - 1)%Z ;;
  let phase_bin0 := find_phase_bin p_last in
  p_first <- py_index profile 0%Z ;;
  let phase_bin1 := find_phase_bin p_first in
  f_last <- py_index freq (nch - 1)%Z ;;
  f_first <- py_index freq 0%Z ;;
  let dm_range :=
    find_delta_dm P profile phase phase_bin0 phase_bin1 f_last f_first nch in
  search <- dm_search nch t_res freq profile dm_range ;;
  let peaks_of_average := snd search in
  sel <- select_best_dm peaks_of_average dm_range ;;
  w_first <- py_index (w10 ch) 0%Z ;;
  w_last <- py_index (w10 ch) (-1)%Z ;;
  best_dm <- sel ;;
  _ <- fileName ;;
  Some [P; alpha; beta; w_first; w_last; IZR iseed; best_dm].

(** Lines 152-167 on their own: the channels as extracted from the beam
    fields, before the scattering and noise stages. *)
Definition extracted_channels `{BeamModel} (args : Args) : option Channels :=
  let max_freq :=
    (IZR (arg_nch args) - 1) * arg_chbw args + arg_min_freq args in
  freq <- linspace_int (arg_min_freq args) max_freq (arg_nch args) ;;
  let H := emission_height (arg_p args) (arg_nc args) (arg_iseed args)
                           (arg_hmin args) (arg_hmax args) in
  profiles_per_frequency (arg_p args) (arg_alpha args) (arg_beta args)
                         (arg_dm args) (arg_npatch args) (arg_snr args)
                         (arg_do_ab args) (arg_iseed args) (arg_doFan args)
                         H freq.

(** The DM search as it is described: every one of the [nch] channels,
    the reference channel included, is rolled and enters the average. *)
Definition described_shifted_profile `{BeamModel} (nch : int) (t_res : R)
  (freq : list R) (profile : list (list R)) (dm_trial : R)
  : option (list (list R)) :=
  for_each (fun shifted freq_id =>
              f_ref <- py_index freq (nch - 1)%Z ;;
              f <- py_index freq freq_id ;;
              let bin_shift := delay f_ref f dm_trial t_res in
              pr <- py_index profile freq_id ;;
              Some (shifted ++ [roll pr bin_shift]))
           (py_range nch) [].

Definition described_peak `{BeamModel} (nch : int) (t_res : R)
  (freq : list R) (profile : list (list R)) (dm_trial : R) : option R :=
  shifted <- described_shifted_profile nch t_res freq profile dm_trial ;;
  Some (find_peak (avg_prof shifted)).

(** The same command line with other values of [-scatter] and [-snr]. *)
Definition set_scatter_snr (args : Args) (scr : option string)
  (snr : option R) : Args :=
  {| arg_p := arg_p args;
     arg_nc := arg_nc args;
     arg_npatch := arg_npatch args;
     arg_iseed := arg_iseed args;
     arg_hmin := arg_hmin args;
     arg_hmax := arg_hmax args;
     arg_alpha := arg_alpha args;
     arg_beta := arg_beta args;
     arg_snr := snr;
     arg_dm := arg_dm args;
     arg_do_ab := arg_do_ab args;
     arg_nch := arg_nch args;
     arg_min_freq := arg_min_freq args;
     arg_chbw := arg_chbw args;
     arg_scatter := scr;
     arg_doFan := arg_doFan args;
     arg_outfile := arg_outfile args |}.

(** An index at which the list of peaks attains its maximum. *)
Definition attains_max (peaks : list R) (i : nat) : Prop :=
  exists m, np_max peaks = Some m /\ nth_error peaks i = Some m.

End Main.

(** ** Concrete instances of the [beamModel] interface *)

Module Sample.

(** Modelled from the spec: [bm.avg_prof] is not in the sources.  The DM
    search is described to "average the shifted profiles across channels":
    the mean over the channels, phase bin by phase bin. *)
Definition mean_profile (profiles : list (list R)) : list R :=
  match profiles with
  | [] => []
  | p0 :: _ =>
    map (fun k =>
           fold_right Rplus 0 (map (fun p => nth k p 0) profiles)
           / INR (length profiles))
        (seq 0 (length p0))
  end.

(** Modelled from the spec: [bm.find_peak] is not in the sources.  The
    search records "the averaged profile's peak": its largest sample. *)
Definition peak (profile : list R) : R :=
  match np_max profile with
  | Some m => m
  | None => 0
  end.

(** A stand-in for [beamModel] that runs the pipeline on given geometry:
    the line of sight, the patch widths, centres and aberration offsets
    and the delay function are supplied; the propagation stages pass the
    profiles through and the DM bracket is the single trial value 0. *)
Definition sample_bm (line : list R * list R * list R) (widths : list R)
  (centres : list (list R) * list (list R)) (offsets : list R * list R)
  (shift : R -> R -> R -> R -> int) : BeamModel :=
  {| patch_width := fun _ _ => widths;
     los := fun _ _ _ => line;
     patch_center := fun _ _ _ _ _ => centres;
     aberration := fun _ _ _ => offsets;
     emission_height := fun _ _ _ _ _ => map (fun _ => 1) widths;
     height_f := fun H _ => H;
     find_width := fun pr => INR (length pr);
     sc_time_array := fun freq _ _ => map (fun _ => 1) freq;
     sc_time := fun _ _ _ => 1;
     pulsetrain := fun _ _ pr => pr ++ pr ++ pr;
     broadening := fun _ _ _ => [1];
     scatter := fun train _ => train;
     extractpulse := fun train _ _ => firstn (length train / 3) train;
     find_peak := peak;
     noise_rms := fun _ m => m;
     add_noise := fun profiles _ _ _ => profiles;
     find_phase_bin := fun _ => 0%Z;
     find_delta_dm := fun _ _ _ _ _ _ _ _ => [0];
     delay := shift;
     avg_prof := mean_profile |}.

(** One component of width 1 with one patch at the origin, a line of sight
    of the single point (0, 0), no delay. *)
Definition one_patch_model : BeamModel :=
  sample_bm ([0], [0], [0]) [1] ([[0]], [[0]]) ([0], [0]) (fun _ _ _ _ => 0%Z).

(** One component of width 1 with one patch of nominal centre (-170, -180)
    and aberration offset (-10, 0), a line of sight of the single point
    (0, 0), no delay. *)
Definition aberrated_patch_model : BeamModel :=
  sample_bm ([0], [0], [0]) [1] ([[-170]], [[-180]]) ([-10], [0])
            (fun _ _ _ _ => 0%Z).

(** A command line with one channel at 1 GHz and all optional stages off. *)
Definition one_channel_args : Main.Args :=
  {| Main.arg_p := 1;
     Main.arg_nc := 1;
     Main.arg_npatch := 1;
     Main.arg_iseed := 4;
     Main.arg_hmin := None;
     Main.arg_hmax := None;
     Main.arg_alpha := 45;
     Main.arg_beta := 5;
     Main.arg_snr := None;
     Main.arg_dm := 1;
     Main.arg_do_ab := None;
     Main.arg_nch := 1;
     Main.arg_min_freq := 1;
     Main.arg_chbw := 1;
     Main.arg_scatter := None;
     Main.arg_doFan := None;
     Main.arg_outfile := Some "out"%string |}.

End Sample.

(** ** src/generateBeam.py, the zoomed extent of the beam plot *)

Module Plot.

Import Beam.

(** [np.where(a != 0.0)] on a [(res, res)] array: the cells that differ
    from zero, in row-major order. *)
Definition nonzero_cells (a : array2) : list (nat * nat) :=
  flat_map
    (fun i =>
       map (fun j => (i, j))
           (filter (fun j => if Req_dec_T (a i j) 0 then false else true)
                   (seq 0 res)))
    (seq 0 res).

(** numpy returns the rows and the columns as a pair of index arrays. *)
Definition np_where (a : array2) : list nat * list nat :=
  (map fst (nonzero_cells a), map snd (nonzero_cells a)).

(** [np.min] and [np.max] of an index array; both raise on an empty one. *)
Definition index_min (l : list nat) : option nat :=
  match l with
  | [] => None
  | a :: t => Some (fold_left Nat.min t a)
  end.

Definition index_max (l : list nat) : option nat :=
  match l with
  | [] => None
  | a :: t => Some (fold_left Nat.max t a)
  end.

(** [np.amin(nonZero, 0)] and [np.amax(nonZero, 0)]: the pair is read as an
    array of shape [(2, K)] and its two rows are reduced against each
    other, entry by entry. *)
Definition amin_axis0 (nz : list nat * list nat) : list nat :=
  map (fun p => Nat.min (fst p) (snd p)) (combine (fst nz) (snd nz)).

Definition amax_axis0 (nz : list nat * list nat) : list nat :=
  map (fun p => Nat.max (fst p) (snd p)) (combine (fst nz) (snd nz)).

(** [np.amin(nonZero, 1)] and [np.amax(nonZero, 1)]: each row is reduced
    on its own; a row of length zero raises. *)
Definition amin_axis1 (nz : list nat * list nat) : option (list nat) :=
  r <- index_min (fst nz) ;;
  c <- index_min (snd nz) ;;
  Some [r; c].

Definition amax_axis1 (nz : list nat * list nat) : option (list nat) :=
  r <- index_max (fst nz) ;;
  c <- index_max (snd nz) ;;
  Some [r; c].

(** Lines 257-264: the window [(x1, x2, y1, y2)] handed to [plt.xlim] and
    [plt.ylim], from the index arrays [nonZero]. *)
Definition zoom_window (nonZero : list nat * list nat) (phase : list R)
  : option (R * R * R * R) :=
  nzx_min <- index_min (amin_axis0 nonZero) ;;
  a1 <- amin_axis1 nonZero ;;
  nzy_min <- index_min a1 ;;
  nzx_max <- index_max (amax_axis0 nonZero) ;;
  b1 <- amax_axis1 nonZero ;;
  nzy_max <- index_max b1 ;;
  x1 <- nth_error phase nzx_min ;;
  x2 <- nth_error phase nzx_max ;;
  y1 <- nth_error phase nzy_min ;;
  y2 <- nth_error phase nzy_max ;;
  Some (x1, x2, y1, y2).

(** Lines 256-264. *)
Definition zoom_extent (beam : list array2) (phase : list R)
  : option (R * R * R * R) :=
  b0 <- nth_error beam 0 ;;
  let nonZero := np_where b0 in
  zoom_window nonZero phase.

End Plot.

(** ** Quantities used to state properties of the synthesizer *)

Module Derived.

Import Beam.

(** The displacement of the Gaussian from the nominal patch centre for the
    component [cid]: none when [do_ab] is unset, the aberration offset of
    the component otherwise. *)
Definition kernel_shift (do_ab : option string) (ab_xofset ab_yofset : list R)
  (cid : nat) : R * R :=
  match do_ab with
  | None => (0, 0)
  | Some _ => (nth cid ab_xofset 0, nth cid ab_yofset 0)
  end.

(** What lines 85 and 87 add at the cell [(i, j)] for the patch [pc]. *)
Definition patch_term (shift : R * R) (sigma : R) (pc : R * R) (i j : nat)
  : R :=
  distance_mask sigma pc i j
  * exp (- ((X i j - fst pc - fst shift) ^ 2 / (2 * sigma ^ 2)
            + (Y i j - snd pc - snd shift) ^ 2 / (2 * sigma ^ 2))).

Definition Rsum (l : list R) : R := fold_right Rplus 0 l.

(** The number of patches the loops of lines 66-87 visit: for each
    component the pairs of [zip(centerx[cid], centery[cid])]. *)
Definition patch_count (ncomp : nat) (centerx centery : list (list R)) : nat :=
  fold_right Nat.add 0%nat
    (map (fun cid => length (combine (nth cid centerx []) (nth cid centery [])))
         (seq 0 ncomp)).

(** The list a loop builds by appending one computed entry per iteration;
    it raises as soon as one entry does. *)
Fixpoint collect {A E : Type} (entry : A -> option E) (l : list A)
  : option (list E) :=
  match l with
  | [] => Some []
  | a :: t =>
    e <- entry a ;;
    es <- collect entry t ;;
    Some (e :: es)
  end.

End Derived.

(** * Properties *)

(** ** Facts about the numpy primitives *)

Module NumpyFacts.

Lemma np_div_nonzero (a b : R) : b <> 0 -> np_div a b = Fin (a / b).
Proof. intro H. unfold np_div. destruct (Req_dec_T b 0); [contradiction | reflexivity]. Qed.

Lemma np_div_zero_zero : np_div 0 0 = NaN.
Proof.
  unfold np_div.
  destruct (Req_dec_T 0 0) as [_ | H]; [reflexivity | now elim H].
Qed.

Lemma np_div_by_zero (a : R) :
  a <> 0 -> np_div a 0 = PInf \/ np_div a 0 = NInf.
Proof.
  intro H. unfold np_div.
  destruct (Req_dec_T 0 0) as [_ | H0]; [| now elim H0].
  destruct (Req_dec_T a 0); [contradiction |].
  destruct (Rlt_dec 0 a); [left | right]; reflexivity.
Qed.

Lemma rad2deg_half_pi : rad2deg (PI / 2) = 90.
Proof. unfold rad2deg. pose proof PI_RGT_0. field. lra. Qed.

Lemma rad2deg_neg_half_pi : rad2deg (- (PI / 2)) = -90.
Proof. unfold rad2deg. pose proof PI_RGT_0. field. lra. Qed.

Lemma rad2deg_le (a b : R) : a <= b -> rad2deg a <= rad2deg b.
Proof.
  intro H. unfold rad2deg. pose proof PI_RGT_0.
  apply Rmult_le_compat_r; [| exact H].
  apply Rlt_le, Rdiv_lt_0_compat; lra.
Qed.

Lemma rad2deg_lt (a b : R) : a < b -> rad2deg a < rad2deg b.
Proof.
  intro H. unfold rad2deg. pose proof PI_RGT_0.
  apply Rmult_lt_compat_r; [| exact H].
  apply Rdiv_lt_0_compat; lra.
Qed.

(** Truncation of a value in [[0, n)] is an integer in [[0, n - 1]]. *)
Lemma astype_int_range (r : R) (n : int) :
  0 <= r < IZR n -> (0 <= astype_int r <= n - 1)%Z.
Proof.
  intros [H0 Hn]. unfold astype_int.
  destruct (Rle_dec 0 r) as [_ | Hneg]; [| contradiction].
  destruct (base_Int_part r) as [Hle Hgt].
  split.
  - assert (IZR (-1) < IZR (Int_part r)) as H by (simpl; lra).
    apply lt_IZR in H. lia.
  - assert (IZR (Int_part r) < IZR n) as H by lra.
    apply lt_IZR in H. lia.
Qed.

Lemma astype_int_IZR (n : int) : (0 <= n)%Z -> astype_int (IZR n) = n.
Proof.
  intro H. unfold astype_int.
  destruct (Rle_dec 0 (IZR n)) as [_ | Hneg].
  - symmetry. apply Int_part_spec. lra.
  - elim Hneg. now apply IZR_le.
Qed.

Lemma nth_linspace (start stop : R) (num j : nat) :
  (j < num)%nat ->
  nth j (linspace start stop num) 0
  = start + INR j * ((stop - start) / INR (num - 1)).
Proof.
  intro H. unfold linspace.
  set (f := fun i => start + INR i * ((stop - start) / INR (num - 1))).
  change (nth j (map f (seq 0 num)) 0 = f j).
  rewrite (nth_indep _ 0 (f O))
    by (rewrite length_map, length_seq; exact H).
  rewrite map_nth, seq_nth by exact H. reflexivity.
Qed.

Lemma firstn_constant {A : Type} (v : A) (k n : nat) :
  (k <= n)%nat -> firstn k (repeat v n) = repeat v k.
Proof.
  revert n. induction k as [| k IH]; intros n H; [reflexivity |].
  destruct n as [| n]; [lia |].
  simpl. f_equal. apply IH. lia.
Qed.

Lemma skipn_constant {A : Type} (v : A) (k n : nat) :
  skipn k (repeat v n) = repeat v (n - k).
Proof.
  revert n. induction k as [| k IH]; intros n.
  - rewrite Nat.sub_0_r. reflexivity.
  - destruct n as [| n]; [reflexivity |]. simpl. apply IH.
Qed.

Lemma roll_constant {A : Type} (v : A) (n : nat) (shift : int) :
  roll (repeat v n) shift = repeat v n.
Proof.
  unfold roll. rewrite repeat_length.
  destruct n as [| m]; [reflexivity |].
  set (k := (S m - Z.to_nat (shift mod Z.of_nat (S m)))%nat).
  assert (k <= S m)%nat as Hk by (unfold k; lia).
  rewrite skipn_constant, firstn_constant, <- repeat_app by exact Hk.
  f_equal. lia.
Qed.

End NumpyFacts.

(** ** The rotating vector model *)

Module RvmProps.

Import Rvm NumpyFacts.

(** The loop over [points = range(1, numpts + 1)] visits the samples of
    [xprof] in order and appends one angle for each. *)
Lemma rvm_loop_app (alpha zeta phi0 psi0 : R) (done rest : list R)
  (allpsi : list npfloat) :
  rvm_loop alpha zeta phi0 psi0 (done ++ rest)
           (seq (S (length done)) (length rest)) allpsi
  = allpsi ++ map (rvm_point alpha zeta phi0 psi0) rest.
Proof.
  revert done allpsi.
  induction rest as [| x rest IH]; intros done allpsi.
  - simpl. now rewrite app_nil_r.
  - cbn [length seq rvm_loop fold_left map].
    replace (S (length done) - 1)%nat with (length done) by lia.
    rewrite nth_middle.
    specialize (IH (done ++ [x]) (allpsi ++ [rvm_point alpha zeta phi0 psi0 x])).
    rewrite <- app_assoc in IH. cbn [app] in IH.
    rewrite length_app, Nat.add_1_r in IH.
    unfold rvm_loop in IH. rewrite IH.
    now rewrite <- app_assoc.
Qed.

Lemma rvm_is_map (alpha beta phi0 psi0 psi : R) (xprof : list R) :
  rvm alpha beta phi0 psi0 psi xprof
  = map (rvm_point alpha (alpha + beta) phi0 psi0) xprof.
Proof.
  unfold rvm. cbv zeta.
  exact (rvm_loop_app alpha (alpha + beta) phi0 psi0 [] xprof []).
Qed.

(** The wrap of a finite angle, case by case. *)
Lemma restrict_psi_fin (p : R) :
  restrict_psi (Fin p)
  = if Rlt_dec p (- PI / 2) then
      (if Rlt_dec (PI / 2) (p + PI) then Fin (p + PI + - PI) else Fin (p + PI))
    else
      (if Rlt_dec (PI / 2) p then Fin (p + - PI) else Fin p).
Proof.
  unfold restrict_psi, np_gt, np_sub, np_lt, np_add, np_neg, Rltb.
  destruct (Rlt_dec p (- PI / 2)).
  - destruct (Rlt_dec (PI / 2) (p + PI)); reflexivity.
  - destruct (Rlt_dec (PI / 2) p); reflexivity.
Qed.

(** A single correction step brings every angle of [[-3pi/2, 3pi/2]] into
    [[-pi/2, pi/2]]. *)
Lemma restrict_psi_range (p : R) :
  - (3 * PI / 2) <= p <= 3 * PI / 2 ->
  exists q, restrict_psi (Fin p) = Fin q /\ - (PI / 2) <= q <= PI / 2.
Proof.
  intros [Hlo Hhi]. rewrite restrict_psi_fin. pose proof PI_RGT_0.
  destruct (Rlt_dec p (- PI / 2)).
  - destruct (Rlt_dec (PI / 2) (p + PI)); eexists; (split; [reflexivity | lra]).
  - destruct (Rlt_dec (PI / 2) p); eexists; (split; [reflexivity | lra]).
Qed.

(** C9.  The conversion loop of lines 25-27 has no effect on the result:
    [rvm] equals the variant with that loop deleted, and every returned
    angle is the formula applied to the raw values of [alpha],
    [zeta = alpha + beta], [phi0] and [psi0]; only the entries of [xprof]
    pass through [deg2rad]. *)
Theorem rvm_conversion_is_dead (alpha beta phi0 psi0 psi : R) (xprof : list R) :
  rvm alpha beta phi0 psi0 psi xprof
  = rvm_without_conversion alpha beta phi0 psi0 psi xprof
  /\ rvm alpha beta phi0 psi0 psi xprof
     = map (rvm_raw_degrees alpha beta phi0 psi0) xprof.
Proof.
  split.
  - reflexivity.
  - rewrite rvm_is_map. apply map_ext. intro x. reflexivity.
Qed.

(** C5, the claim fails.  With [psi0 = 400] and a non-zero denominator the
    single correction step leaves the returned angle above 90; with
    [psi0 = -pi/2] the returned angle is -90 itself, which the half-open
    interval excludes. *)
Lemma rvm_range_counterexample :
  rvm_denom 0 (0 + 1) 0 (deg2rad 0) <> 0
  /\ (exists d, rvm 0 1 0 400 0 [0] = [Fin d] /\ 90 < d)
  /\ rvm 0 1 0 (- PI / 2) 0 [0] = [Fin (-90)].
Proof.
  pose proof PI_RGT_0 as Hpi. pose proof PI_4 as Hpi4. pose proof PI2_1 as Hpi1.
  assert (rvm_denom 0 (0 + 1) 0 (deg2rad 0) = sin 1) as Hden.
  { unfold rvm_denom. rewrite sin_0, cos_0. replace (0 + 1) with 1 by lra. lra. }
  assert (0 < sin 1) as Hsin by (apply sin_gt_0; lra).
  assert (forall psi0, rvm_psi 0 (0 + 1) 0 psi0 (deg2rad 0) = Fin (psi0 + 0)) as Hpsi.
  { intro psi0. unfold rvm_psi. rewrite np_div_nonzero by (rewrite Hden; lra).
    unfold rvm_numer. rewrite sin_0, Rmult_0_l.
    unfold Rdiv. rewrite Rmult_0_l. cbn [np_arctan np_add]. now rewrite atan_0. }
  split; [rewrite Hden; lra |]. split.
  - rewrite rvm_is_map. cbn [map]. unfold rvm_point. cbv zeta.
    rewrite Hpsi, restrict_psi_fin.
    destruct (Rlt_dec (400 + 0) (- PI / 2)) as [Hc | _]; [lra |].
    destruct (Rlt_dec (PI / 2) (400 + 0)) as [_ | Hc]; [| lra].
    eexists. split; [reflexivity |].
    rewrite <- rad2deg_half_pi. apply rad2deg_lt. lra.
  - rewrite rvm_is_map. cbn [map]. unfold rvm_point. cbv zeta.
    rewrite Hpsi, restrict_psi_fin.
    destruct (Rlt_dec (- PI / 2 + 0) (- PI / 2)) as [Hc | _]; [lra |].
    destruct (Rlt_dec (PI / 2) (- PI / 2 + 0)) as [Hc | _]; [lra |].
    cbn [np_rad2deg]. do 2 f_equal.
    replace (- PI / 2 + 0) with (- (PI / 2)) by lra.
    apply rad2deg_neg_half_pi.
Qed.

(** C5, as amended.  For every input with a non-zero denominator at each
    phase sample and an angle before wrapping within [[-3pi/2, 3pi/2]],
    every returned position angle lies in the closed interval
    [[-90, 90]] degrees. *)
Theorem rvm_range_closed (alpha beta phi0 psi0 psi : R) (xprof : list R) :
  Forall (fun x => rvm_denom alpha (alpha + beta) phi0 (deg2rad x) <> 0) xprof ->
  Forall (fun x =>
            - (3 * PI / 2)
            <= psi0 + atan (rvm_numer alpha phi0 (deg2rad x)
                            / rvm_denom alpha (alpha + beta) phi0 (deg2rad x))
            <= 3 * PI / 2) xprof ->
  Forall (fun v => exists d, v = Fin d /\ -90 <= d <= 90)
         (rvm alpha beta phi0 psi0 psi xprof).
Proof.
  intros Hden Hrange. rewrite rvm_is_map.
  induction xprof as [| x xprof IH]; [constructor |].
  inversion Hden as [| ? ? Hd Hden']; subst.
  inversion Hrange as [| ? ? Hr Hrange']; subst.
  cbn [map]. constructor; [| now apply IH].
  unfold rvm_point, rvm_psi. cbv zeta.
  rewrite np_div_nonzero by exact Hd. cbn [np_arctan np_add].
  destruct (restrict_psi_range _ Hr) as [q [Hq [Hlo Hhi]]].
  rewrite Hq. cbn [np_rad2deg]. eexists. split; [reflexivity |].
  split.
  - rewrite <- rad2deg_neg_half_pi. now apply rad2deg_le.
  - rewrite <- rad2deg_half_pi. now apply rad2deg_le.
Qed.

Lemma rvm_range_closed_witness :
  Forall (fun v => exists d, v = Fin d /\ -90 <= d <= 90) (rvm 0 1 0 0 0 [0]).
Proof.
  pose proof PI_RGT_0 as Hpi. pose proof PI2_1 as Hpi1.
  assert (rvm_denom 0 (0 + 1) 0 (deg2rad 0) = sin 1) as Hden.
  { unfold rvm_denom. rewrite sin_0, cos_0. replace (0 + 1) with 1 by lra. lra. }
  assert (0 < sin 1) as Hsin by (apply sin_gt_0; lra).
  apply (rvm_range_closed 0 1 0 0 0 [0]).
  - constructor; [rewrite Hden; lra | constructor].
  - constructor; [| constructor].
    unfold rvm_numer. rewrite sin_0, Rmult_0_l.
    unfold Rdiv. rewrite Rmult_0_l, atan_0. lra.
Defined.

(** C6, the claim fails.  With [alpha = beta = 0] numerator and denominator
    are both zero; the quotient is NaN and NaN is the returned angle. *)
Lemma rvm_zero_denominator_counterexample :
  rvm_denom 0 (0 + 0) 0 (deg2rad 0) = 0
  /\ rvm 0 0 0 0 0 [0] = [NaN].
Proof.
  assert (rvm_denom 0 (0 + 0) 0 (deg2rad 0) = 0) as Hden.
  { unfold rvm_denom. rewrite sin_0. replace (0 + 0) with 0 by lra.
    rewrite sin_0. lra. }
  split; [exact Hden |].
  rewrite rvm_is_map. cbn [map]. unfold rvm_point, rvm_psi. cbv zeta.
  rewrite Hden. unfold rvm_numer. rewrite sin_0, Rmult_0_l.
  rewrite np_div_zero_zero. reflexivity.
Qed.

(** C6, as amended.  [rvm] has no guard for a zero denominator: the
    quotient is taken as numpy takes it.  At a sample where the
    denominator is zero, a zero numerator makes the returned angle NaN; a
    non-zero numerator makes the quotient infinite, and the returned angle
    is the wrapped value of [psi0 + pi/2] or of [psi0 - pi/2]. *)
Theorem rvm_zero_denominator (alpha beta phi0 psi0 psi : R) (xprof : list R)
  (k : nat) (x : R) :
  nth_error xprof k = Some x ->
  rvm_denom alpha (alpha + beta) phi0 (deg2rad x) = 0 ->
  (rvm_numer alpha phi0 (deg2rad x) = 0 ->
   nth_error (rvm alpha beta phi0 psi0 psi xprof) k = Some NaN)
  /\ (rvm_numer alpha phi0 (deg2rad x) <> 0 ->
      exists s, (s = PI / 2 \/ s = - (PI / 2))
                /\ nth_error (rvm alpha beta phi0 psi0 psi xprof) k
                   = Some (np_rad2deg (restrict_psi (Fin (psi0 + s))))).
Proof.
  intros Hk Hden. rewrite rvm_is_map.
  rewrite nth_error_map, Hk. cbn [option_map].
  unfold rvm_point, rvm_psi. cbv zeta. rewrite Hden.
  split.
  - intro Hnum. rewrite Hnum, np_div_zero_zero. reflexivity.
  - intro Hnum. destruct (np_div_by_zero _ Hnum) as [Hq | Hq]; rewrite Hq.
    + exists (PI / 2). split; [now left | reflexivity].
    + exists (- (PI / 2)). split; [now right | reflexivity].
Qed.

Lemma rvm_zero_denominator_witness :
  nth_error (rvm 0 0 0 0 0 [0]) 0 = Some NaN.
Proof.
  assert (sin 0 * sin (deg2rad 0 - 0) = 0) as Hnum
    by (rewrite sin_0; lra).
  assert (sin (0 + 0) * cos 0 - cos (0 + 0) * sin 0 * cos (deg2rad 0 - 0) = 0)
    as Hden.
  { rewrite sin_0. replace (0 + 0) with 0 by lra. rewrite sin_0. lra. }
  exact (proj1 (rvm_zero_denominator 0 0 0 0 0 [0] 0 0 eq_refl Hden) Hnum).
Defined.

(** An infinite quotient in the real-number reading: with [alpha = pi/2],
    [beta = 0] and the sample at 90 degrees the denominator is zero and
    the numerator is one; the returned angle is the finite value 90. *)
Example rvm_infinite_quotient :
  rvm_denom (PI / 2) (PI / 2 + 0) 0 (deg2rad 90) = 0
  /\ rvm (PI / 2) 0 0 0 0 [90] = [Fin 90].
Proof.
  pose proof PI_RGT_0 as Hpi.
  assert (deg2rad 90 = PI / 2) as Hphi by (unfold deg2rad; lra).
  assert (rvm_denom (PI / 2) (PI / 2 + 0) 0 (deg2rad 90) = 0) as Hden.
  { unfold rvm_denom. rewrite Rplus_0_r, cos_PI2. lra. }
  split; [exact Hden |].
  rewrite rvm_is_map. cbn [map]. unfold rvm_point, rvm_psi. cbv zeta.
  rewrite Hden. unfold rvm_numer. rewrite Hphi, Rminus_0_r, sin_PI2, Rmult_1_r.
  unfold np_div.
  destruct (Req_dec_T 0 0) as [_ | Hn]; [| now elim Hn].
  destruct (Req_dec_T 1 0) as [Hc | _]; [lra |].
  destruct (Rlt_dec 0 1) as [_ | Hc]; [| lra].
  cbn [np_arctan np_add]. rewrite restrict_psi_fin.
  destruct (Rlt_dec (0 + PI / 2) (- PI / 2)) as [Hc | _]; [lra |].
  destruct (Rlt_dec (PI / 2) (0 + PI / 2)) as [Hc | _]; [lra |].
  cbn [np_rad2deg]. do 2 f_equal. rewrite Rplus_0_l. apply rad2deg_half_pi.
Qed.

End RvmProps.

(** ** The 2D beam synthesizer and the profile extractor *)

Module BeamProps.

Import Beam NumpyFacts.

Lemma bind_some {A B : Type} (m : option A) (k : A -> option B) (b : B) :
  bind m k = Some b -> exists a, m = Some a /\ k a = Some b.
Proof. destruct m as [a |]; [intro H; now exists a | discriminate]. Qed.

(** A property of the loop state kept by every iteration holds when the
    loop ends. *)
Lemma for_each_invariant {A S : Type} (Inv : S -> Prop)
  (body : S -> A -> option S) (l : list A) :
  (forall s a s', In a l -> Inv s -> body s a = Some s' -> Inv s') ->
  forall s s', Inv s -> for_each body l s = Some s' -> Inv s'.
Proof.
  induction l as [| a l IH]; intros Hbody s s' Hs Hrun.
  - injection Hrun as <-. exact Hs.
  - cbn [for_each] in Hrun. apply bind_some in Hrun as [s1 [H1 Hrest]].
    apply (IH (fun s0 a0 s0' Hin => Hbody s0 a0 s0' (or_intror Hin)) s1 s').
    + apply (Hbody s a s1); [now left | exact Hs | exact H1].
    + exact Hrest.
Qed.

(** The loop runs to its end when every iteration does. *)
Lemma for_each_returns {A S : Type} (body : S -> A -> option S) (l : list A) :
  (forall s a, In a l -> exists s', body s a = Some s') ->
  forall s, exists s', for_each body l s = Some s'.
Proof.
  induction l as [| a l IH]; intros Hbody s.
  - now exists s.
  - destruct (Hbody s a (or_introl eq_refl)) as [s1 H1].
    cbn [for_each]. rewrite H1. cbn [bind].
    apply IH. intros s0 a0 Hin. apply Hbody. now right.
Qed.

(** *** The cutoff of lines 82-83 *)

Lemma cutoff_beyond (d : R) : 3 < d -> cutoff d = 0.
Proof.
  intro H. unfold cutoff.
  destruct (Rgt_dec d 3) as [_ | Hn]; [| elim Hn; exact H].
  destruct (Req_dec_T 0 0) as [_ | Hn]; [reflexivity | now elim Hn].
Qed.

Lemma cutoff_at_zero : cutoff 0 = 0.
Proof.
  unfold cutoff.
  destruct (Rgt_dec 0 3) as [H | _]; [unfold Rgt in H; lra |].
  destruct (Req_dec_T 0 0) as [_ | Hn]; [reflexivity | now elim Hn].
Qed.

Lemma cutoff_within (d : R) : d <= 3 -> d <> 0 -> cutoff d = 1.
Proof.
  intros H3 H0. unfold cutoff.
  destruct (Rgt_dec d 3) as [H | _]; [unfold Rgt in H; lra |].
  destruct (Req_dec_T d 0); [contradiction | reflexivity].
Qed.

Lemma cutoff_nonneg (d : R) : 0 <= cutoff d.
Proof.
  unfold cutoff, peakAmp.
  destruct (Rgt_dec d 3).
  - destruct (Req_dec_T 0 0); lra.
  - destruct (Req_dec_T d 0); lra.
Qed.

Lemma sqrt_above_3 (v : R) : 9 < v -> 3 < sqrt v.
Proof.
  intro H. replace 3 with (sqrt (3 * 3)) by (apply sqrt_square; lra).
  apply sqrt_lt_1_alt. lra.
Qed.

Lemma mask_beyond (sigma : R) (pc : R * R) (i j : nat) :
  0 < sigma ->
  3 * sigma < sqrt ((X i j - fst pc) ^ 2 + (Y i j - snd pc) ^ 2) ->
  distance_mask sigma pc i j = 0.
Proof.
  intros Hs Hd. unfold distance_mask. apply cutoff_beyond.
  assert (0 < / sigma) as Hinv by (apply Rinv_0_lt_compat; exact Hs).
  unfold Rdiv. replace 3 with (3 * sigma * / sigma) by (field; lra).
  apply Rmult_lt_compat_r; assumption.
Qed.

(** *** One patch *)

(** What one pass of the patch loop adds at a cell: the mask about the
    nominal centre [pc] times a positive Gaussian factor. *)
Lemma patch_update_adds (do_ab : option string) (ab_xofset ab_yofset : list R)
  (cid : nat) (sigmax sigmay : R) (Z Z' : array2) (pc : R * R) :
  patch_update do_ab ab_xofset ab_yofset cid sigmax sigmay Z pc = Some Z' ->
  forall i j, exists g,
    0 < g /\ Z' i j = Z i j + distance_mask sigmax pc i j * g.
Proof.
  unfold patch_update. cbv zeta. destruct do_ab as [flag |].
  - intros H i j.
    apply bind_some in H as [abx [_ H]].
    apply bind_some in H as [aby [_ H]].
    injection H as <-. eexists. split; [apply exp_pos | reflexivity].
  - intros H i j. injection H as <-.
    eexists. split; [apply exp_pos | reflexivity].
Qed.

Lemma patch_update_nonneg do_ab ab_xofset ab_yofset cid sigmax sigmay
  (Z Z' : array2) (pc : R * R) (i j : nat) :
  patch_update do_ab ab_xofset ab_yofset cid sigmax sigmay Z pc = Some Z' ->
  0 <= Z i j -> 0 <= Z' i j.
Proof.
  intros H HZ. destruct (patch_update_adds _ _ _ _ _ _ _ _ _ H i j) as [g [Hg ->]].
  pose proof (cutoff_nonneg
    (sqrt ((X i j - fst pc) ^ 2 + (Y i j - snd pc) ^ 2) / sigmax)) as Hm.
  fold (distance_mask sigmax pc i j) in Hm.
  assert (0 <= distance_mask sigmax pc i j * g)
    by (apply Rmult_le_pos; lra).
  lra.
Qed.

Lemma patch_update_outside do_ab ab_xofset ab_yofset cid sigmax sigmay
  (Z Z' : array2) (pc : R * R) (i j : nat) :
  patch_update do_ab ab_xofset ab_yofset cid sigmax sigmay Z pc = Some Z' ->
  0 < sigmax ->
  3 * sigmax < sqrt ((X i j - fst pc) ^ 2 + (Y i j - snd pc) ^ 2) ->
  Z' i j = Z i j.
Proof.
  intros H Hs Hd. destruct (patch_update_adds _ _ _ _ _ _ _ _ _ H i j) as [g [Hg ->]].
  rewrite (mask_beyond _ _ _ _ Hs Hd). lra.
Qed.

(** *** One component *)

Lemma component_update_inv (Inv : array2 -> Prop) (do_ab : option string)
  (patchwidths : list R) (centerx centery : list (list R))
  (ab_xofset ab_yofset : list R) (Z Z' : array2) (cid : nat) :
  (forall sigma cxs cys pc Z0 Z1,
      nth_error patchwidths cid = Some sigma ->
      nth_error centerx cid = Some cxs ->
      nth_error centery cid = Some cys ->
      In pc (combine cxs cys) ->
      Inv Z0 ->
      patch_update do_ab ab_xofset ab_yofset cid sigma sigma Z0 pc = Some Z1 ->
      Inv Z1) ->
  Inv Z ->
  component_update do_ab patchwidths centerx centery ab_xofset ab_yofset Z cid
  = Some Z' ->
  Inv Z'.
Proof.
  intros Hstep HZ H. unfold component_update in H.
  apply bind_some in H as [sigmax [Hsx H]].
  apply bind_some in H as [sigmay [Hsy H]].
  apply bind_some in H as [cxs [Hcx H]].
  apply bind_some in H as [cys [Hcy H]].
  assert (sigmay = sigmax) as -> by congruence.
  revert H. apply for_each_invariant; [| exact HZ].
  intros Z0 pc Z1 Hin HZ0 Hup.
  exact (Hstep sigmax cxs cys pc Z0 Z1 Hsx Hcx Hcy Hin HZ0 Hup).
Qed.

(** *** The grid *)

Lemma X_first : X 0%nat 0%nat = -180.
Proof.
  unfold X, x. rewrite nth_linspace by (unfold res; lia).
  cbn [INR]. unfold xmin. lra.
Qed.

Lemma Y_first : Y 0%nat 0%nat = -180.
Proof.
  unfold Y, y. rewrite nth_linspace by (unfold res; lia).
  cbn [INR]. unfold ymin. lra.
Qed.

Lemma dx_value : dx = 36 / 100.
Proof.
  unfold dx, xmax, xmin, res. rewrite INR_IZR_INZ.
  change (Z.of_nat 1000) with 1000%Z. lra.
Qed.

Lemma dy_value : dy = 36 / 100.
Proof.
  unfold dy, ymax, ymin, res. rewrite INR_IZR_INZ.
  change (Z.of_nat 1000) with 1000%Z. lra.
Qed.

(** A patch centred exactly on a cell is masked out at that cell. *)
Lemma mask_at_own_centre (sigma : R) (i j : nat) :
  distance_mask sigma (X i j, Y i j) i j = 0.
Proof.
  unfold distance_mask. cbn [fst snd].
  replace ((X i j - X i j) ^ 2 + (Y i j - Y i j) ^ 2) with 0 by ring.
  rewrite sqrt_0. unfold Rdiv. rewrite Rmult_0_l. apply cutoff_at_zero.
Qed.

Lemma described_at_centre (sigma cx cy : R) :
  0 <= sigma -> described_contribution sigma cx cy cx cy = 1.
Proof.
  intro Hs. unfold described_contribution.
  replace ((cx - cx) ^ 2) with 0 by ring.
  replace ((cy - cy) ^ 2) with 0 by ring.
  rewrite Rplus_0_r, sqrt_0.
  destruct (Rle_dec 0 (3 * sigma)) as [_ | Hn]; [| elim Hn; lra].
  unfold Rdiv. rewrite Rmult_0_l, Rplus_0_r, Ropp_0, exp_0. lra.
Qed.

(** C1, at the failing inputs.  A patch of width 1 centred on the grid
    cell (0, 0), at (-180, -180), adds nothing to that cell, where the
    Gaussian times the indicator is 1.  With aberration enabled, nominal
    centre (-170, -180) and offset (-10, 0), the effective centre is the
    cell (0, 0) again; the mask is taken about the nominal centre, ten
    widths away, and the patch adds nothing there either. *)
Theorem centre_cell_receives_no_power :
  X 0%nat 0%nat = -180 /\ Y 0%nat 0%nat = -180
  /\ (exists Z',
         patch_update None [] [] 0 1 1 (zeros_like X) (-180, -180) = Some Z'
         /\ Z' 0%nat 0%nat = 0)
  /\ described_contribution 1 (-180) (-180) (X 0%nat 0%nat) (Y 0%nat 0%nat) = 1
  /\ (exists Z',
         patch_update (Some "1"%string) [-10] [0] 0 1 1 (zeros_like X)
                      (-170, -180) = Some Z'
         /\ Z' 0%nat 0%nat = 0)
  /\ described_contribution 1 (-170 + -10) (-180 + 0) (X 0%nat 0%nat) (Y 0%nat 0%nat) = 1.
Proof.
  pose proof X_first as HX. pose proof Y_first as HY.
  split; [exact HX |]. split; [exact HY |]. split; [| split; [| split]].
  - eexists. split; [reflexivity |]. cbv beta.
    pose proof (mask_at_own_centre 1 0 0) as Hm. rewrite HX, HY in Hm.
    rewrite Hm. unfold zeros_like. lra.
  - rewrite HX, HY. apply described_at_centre. lra.
  - eexists. split; [reflexivity |]. cbv beta.
    assert (distance_mask 1 (-170, -180) 0%nat 0%nat = 0) as Hm.
    { apply mask_beyond; [lra |]. cbn [fst snd]. rewrite HX, HY.
      rewrite Rmult_1_r. apply sqrt_above_3. lra. }
    rewrite Hm. unfold zeros_like. lra.
  - rewrite HX, HY.
    replace (-170 + -10) with (-180) by lra.
    replace (-180 + 0) with (-180) by lra.
    apply described_at_centre. lra.
Qed.

(** *** The profile extractor *)

Lemma axis_index_inside (n : nat) (i : int) :
  (0 <= i <= Z.of_nat n - 1)%Z -> axis_index n i = Some (Z.to_nat i).
Proof.
  intro H. unfold axis_index.
  replace (0 <=? i)%Z with true by (symmetry; apply Z.leb_le; lia).
  replace (i <? Z.of_nat n)%Z with true by (symmetry; apply Z.ltb_lt; lia).
  reflexivity.
Qed.

(** The coordinates are kept one grid step clear of the upper edge: there
    the quotient is at most 999, and the rounding of the float subtraction
    and division cannot carry the index to 1000. *)
Lemma x_index_inside (v : R) :
  -180 <= v <= 180 - dx -> (0 <= x_index v <= Z.of_nat res - 1)%Z.
Proof.
  intro H. unfold x_index. apply astype_int_range.
  rewrite dx_value in *. unfold xmin, res.
  change (Z.of_nat 1000) with 1000%Z. lra.
Qed.

Lemma y_index_inside (v : R) :
  -180 <= v <= 180 - dy -> (0 <= y_index v <= Z.of_nat res - 1)%Z.
Proof.
  intro H. unfold y_index. apply astype_int_range.
  rewrite dy_value in *. unfold ymin, res.
  change (Z.of_nat 1000) with 1000%Z. lra.
Qed.

Lemma x_index_at_180 : x_index 180 = 1000%Z.
Proof.
  unfold x_index. rewrite dx_value. unfold xmin.
  replace ((180 - -180) / (36 / 100)) with (IZR 1000) by lra.
  apply astype_int_IZR. lia.
Qed.

Lemma x_index_at_0 : x_index 0 = 500%Z.
Proof.
  unfold x_index. rewrite dx_value. unfold xmin.
  replace ((0 - -180) / (36 / 100)) with (IZR 500) by lra.
  apply astype_int_IZR. lia.
Qed.

Lemma y_index_at_0 : y_index 0 = 500%Z.
Proof.
  unfold y_index. rewrite dy_value. unfold ymin.
  replace ((0 - -180) / (36 / 100)) with (IZR 500) by lra.
  apply astype_int_IZR. lia.
Qed.

Lemma X_at (i j : nat) :
  (j < res)%nat -> X i j = -180 + INR j * (360 / 999).
Proof.
  intro Hj. unfold X, x. rewrite nth_linspace by exact Hj.
  unfold xmin, xmax, res. rewrite (INR_IZR_INZ (1000 - 1)).
  change (Z.of_nat (1000 - 1)) with 999%Z. lra.
Qed.

Lemma Y_at (i j : nat) :
  (i < res)%nat -> Y i j = -180 + INR i * (360 / 999).
Proof.
  intro Hi. unfold Y, y. rewrite nth_linspace by exact Hi.
  unfold ymin, ymax, res. rewrite (INR_IZR_INZ (1000 - 1)).
  change (Z.of_nat (1000 - 1)) with 999%Z. lra.
Qed.

(** *** The aberrated patch *)

(** The run of [generateBeam] with aberration enabled on one patch of
    nominal centre (-170, -180), offset (-10, 0) and width 1: the mask is
    the one about the nominal centre, the Gaussian the one about the
    shifted centre. *)
Lemma aberrated_patch_beam :
  generateBeam (H := Sample.aberrated_patch_model) 1 45 5 1 1 [1] 10 None
               (Some "1"%string) 4 None
  = Some ([zeros_like X 500%nat 500%nat
           + distance_mask 1 (-170, -180) 500%nat 500%nat
             * exp (- ((X 500%nat 500%nat - fst (-170, -180) - -10) ^ 2
                       / (2 * 1 ^ 2)
                       + (Y 500%nat 500%nat - snd (-170, -180) - 0) ^ 2
                         / (2 * 1 ^ 2)))],
          fun i j =>
            zeros_like X i j
            + distance_mask 1 (-170, -180) i j
              * exp (- ((X i j - fst (-170, -180) - -10) ^ 2 / (2 * 1 ^ 2)
                        + (Y i j - snd (-170, -180) - 0) ^ 2 / (2 * 1 ^ 2)))).
Proof.
  unfold generateBeam. cbv zeta. unfold Sample.aberrated_patch_model.
  cbn [patch_width los patch_center aberration Sample.sample_bm fst snd
       length seq for_each component_update nth_error bind combine
       patch_update map].
  rewrite x_index_at_0, y_index_at_0.
  unfold gather. cbn [broadcast length Nat.eqb combine bind gather_pairs].
  change (axis_index res 500) with (Some 500%nat).
  reflexivity.
Qed.

Lemma aberrated_patch_width_positive :
  Forall (fun sigma => 0 < sigma)
         (patch_width (BeamModel := Sample.aberrated_patch_model) 1 [1]).
Proof.
  cbn [patch_width Sample.aberrated_patch_model Sample.sample_bm].
  constructor; [lra | constructor].
Qed.

(** C7, at the failing input.  With aberration enabled, one patch of width
    1, nominal centre (-170, -180) and offset (-10, 0) has its Gaussian,
    and so its centre, at (-180, -180).  The cell (0, 27), at
    (-180 + 360/37, -180), lies more than three widths from that centre,
    the only one there is, and yet the returned field is positive there:
    the mask of line 81 is taken about the nominal centre, 10/37 away from
    the cell. *)
Theorem aberrated_patch_lights_cell_outside_support :
  exists prof Z,
    generateBeam (H := Sample.aberrated_patch_model) 1 45 5 1 1 [1] 10 None
                 (Some "1"%string) 4 None
    = Some (prof, Z)
    /\ X 0%nat 27%nat = -180 + 360 / 37
    /\ Y 0%nat 27%nat = -180
    /\ 3 * 1 < sqrt ((X 0%nat 27%nat - (-170 + -10)) ^ 2
                     + (Y 0%nat 27%nat - (-180 + 0)) ^ 2)
    /\ Z 0%nat 27%nat
       = exp (- ((X 0%nat 27%nat - (-170 + -10)) ^ 2 / (2 * 1 ^ 2)
                 + (Y 0%nat 27%nat - (-180 + 0)) ^ 2 / (2 * 1 ^ 2)))
    /\ 0 < Z 0%nat 27%nat.
Proof.
  assert (X 0%nat 27%nat = -180 + 360 / 37) as HX.
  { rewrite X_at by (unfold res; lia).
    rewrite INR_IZR_INZ. change (Z.of_nat 27) with 27%Z. lra. }
  assert (Y 0%nat 27%nat = -180) as HY.
  { rewrite Y_at by (unfold res; lia). cbn [INR]. lra. }
  assert (distance_mask 1 (-170, -180) 0%nat 27%nat = 1) as Hmask.
  { unfold distance_mask. cbn [fst snd]. rewrite HX, HY.
    replace ((-180 + 360 / 37 - -170) ^ 2 + (-180 - -180) ^ 2)
      with (100 / 1369) by lra.
    unfold Rdiv at 1. rewrite Rinv_1, Rmult_1_r.
    apply cutoff_within.
    - replace 3 with (sqrt (3 * 3)) by (apply sqrt_square; lra).
      apply sqrt_le_1_alt. lra.
    - assert (0 < sqrt (100 / 1369)) by (apply sqrt_lt_R0; lra). lra. }
  eexists. eexists. split; [exact aberrated_patch_beam |].
  split; [exact HX |]. split; [exact HY |]. split; [| split].
  - rewrite HX, HY, Rmult_1_r. apply sqrt_above_3.
    replace ((-180 + 360 / 37 - (-170 + -10)) ^ 2 + (-180 - (-180 + 0)) ^ 2)
      with (129600 / 1369) by lra.
    lra.
  - cbv beta. rewrite Hmask. unfold zeros_like. cbn [fst snd].
    rewrite Rplus_0_l, Rmult_1_l. f_equal. f_equal. lra.
  - cbv beta. rewrite Hmask. unfold zeros_like.
    rewrite Rplus_0_l, Rmult_1_l. apply exp_pos.
Qed.

Lemma gather_pairs_inside (Z : array2) (idx : list (int * int)) :
  Forall (fun p => (0 <= fst p <= Z.of_nat res - 1)%Z
                   /\ (0 <= snd p <= Z.of_nat res - 1)%Z) idx ->
  exists prof, gather_pairs Z idx = Some prof /\ length prof = length idx.
Proof.
  induction 1 as [| [ix iy] idx [Hx Hy] _ [prof [IH Hlen]]].
  - now exists [].
  - cbn [fst snd] in Hx, Hy. cbn [gather_pairs].
    rewrite (axis_index_inside _ _ Hx), (axis_index_inside _ _ Hy), IH.
    cbn [bind]. eexists. split; [reflexivity |]. cbn [length]. now rewrite Hlen.
Qed.

(** C2, the claim fails.  A line-of-sight point with [x = 180] gets the
    row index 1000, one past the last row of the 1000 x 1000 field; no
    clamp or check stands between the conversion and the gather, which
    raises, and [generateBeam] returns nothing. *)
Lemma profile_index_counterexample :
  x_index 180 = 1000%Z
  /\ axis_index res 1000 = None
  /\ generateBeam (H := Sample.sample_bm ([180], [0], [0]) [] ([], [])
                                        ([], []) (fun _ _ _ _ => 0%Z))
                  1 45 5 1 1 [] 10 None None 4 None
     = None.
Proof.
  split; [exact x_index_at_180 |]. split; [reflexivity |].
  unfold generateBeam. cbv zeta.
  cbn [patch_width los patch_center aberration Sample.sample_bm fst snd
       length seq for_each bind map].
  unfold gather. cbn [broadcast length Nat.eqb combine bind gather_pairs].
  rewrite x_index_at_180. reflexivity.
Qed.

(** C2, as amended.  The grid indices are the truncations of
    [(coord - min) / step] with [step = 360 / 1000]; they are neither
    clamped nor checked.  For line-of-sight points that stay one step
    clear of the upper edge, [-180 <= x <= 180 - dx] and
    [-180 <= y <= 180 - dy], every index lies in [[0, 999]], and the
    gather succeeds with one profile sample per point. *)
Theorem profile_gather_inside_grid (Z : array2) (xlos ylos : list R) :
  length xlos = length ylos ->
  Forall (fun v => -180 <= v <= 180 - dx) xlos ->
  Forall (fun v => -180 <= v <= 180 - dy) ylos ->
  Forall (fun i => (0 <= i <= Z.of_nat res - 1)%Z) (map x_index xlos)
  /\ Forall (fun i => (0 <= i <= Z.of_nat res - 1)%Z) (map y_index ylos)
  /\ exists prof,
       gather Z (map x_index xlos) (map y_index ylos) = Some prof
       /\ length prof = length xlos.
Proof.
  intros Hlen Hx Hy.
  assert (Forall (fun i => (0 <= i <= Z.of_nat res - 1)%Z) (map x_index xlos))
    as Hix.
  { apply Forall_map. revert Hx. apply Forall_impl. exact x_index_inside. }
  assert (Forall (fun i => (0 <= i <= Z.of_nat res - 1)%Z) (map y_index ylos))
    as Hiy.
  { apply Forall_map. revert Hy. apply Forall_impl. exact y_index_inside. }
  split; [exact Hix |]. split; [exact Hiy |].
  unfold gather, broadcast. rewrite !length_map, Hlen, Nat.eqb_refl.
  cbn [bind].
  destruct (gather_pairs_inside Z (combine (map x_index xlos) (map y_index ylos)))
    as [prof [Hprof Hl]].
  - apply Forall_forall. intros [ix iy] Hin. cbn [fst snd].
    rewrite Forall_forall in Hix, Hiy. split.
    + apply Hix. exact (in_combine_l _ _ _ _ Hin).
    + apply Hiy. exact (in_combine_r _ _ _ _ Hin).
  - exists prof. split; [exact Hprof |].
    rewrite Hl, length_combine, !length_map, Hlen. apply Nat.min_id.
Qed.

Lemma profile_gather_inside_grid_witness :
  exists prof,
    gather (zeros_like X) (map x_index [0; -180]) (map y_index [0; 0])
    = Some prof
    /\ length prof = 2%nat.
Proof.
  apply (profile_gather_inside_grid (zeros_like X) [0; -180] [0; 0]).
  - reflexivity.
  - repeat (apply Forall_cons; [rewrite dx_value; lra |]). apply Forall_nil.
  - repeat (apply Forall_cons; [rewrite dy_value; lra |]). apply Forall_nil.
Defined.

End BeamProps.

(** ** The script body: scattering, DM search, output record *)

Module MainProps.

Import Beam Main NumpyFacts BeamProps.

Lemma for_each_app {A S : Type} (body : S -> A -> option S) (l1 l2 : list A)
  (s : S) :
  for_each body (l1 ++ l2) s = (s1 <- for_each body l1 s ;; for_each body l2 s1).
Proof.
  revert s. induction l1 as [| a l1 IH]; intro s; [reflexivity |].
  cbn [app for_each]. destruct (body s a) as [s1 |]; [apply IH | reflexivity].
Qed.

Lemma for_each_ext {A S : Type} (body body' : S -> A -> option S)
  (l : list A) (s : S) :
  (forall s0 a, body s0 a = body' s0 a) ->
  for_each body l s = for_each body' l s.
Proof.
  intro Hext. revert s. induction l as [| a l IH]; intro s; [reflexivity |].
  cbn [for_each]. rewrite Hext. destruct (body' s a); [apply IH | reflexivity].
Qed.

Ltac bind_inv H :=
  repeat match type of H with
         | bind _ _ = Some _ =>
           let v := fresh "v" in
           let E := fresh "E" in
           apply bind_some in H as [v [E H]]
         end.

(** C8.  With the scattering flag unset the stage hands the extracted
    profiles through unchanged: [sc_prof] is [prof] itself and the list of
    pulse trains stays empty; no pulse train, broadening kernel or
    convolution is applied to any channel. *)
Theorem scattering_unset_is_identity `{BeamModel} (P dm : R) (iseed : int)
  (freq : list R) (prof : list (list R)) :
  scattering_stage None P dm iseed freq prof = Some ([], prof).
Proof. reflexivity. Qed.

(** *** The selection of [best_dm] *)

Lemma select_prefix_S (peaks dm_range : list R) (k : nat) :
  for_each (select_step peaks dm_range) (seq 0 (S k)) None
  = (b <- for_each (select_step peaks dm_range) (seq 0 k) None ;;
     select_step peaks dm_range b k).
Proof.
  rewrite seq_S, for_each_app. cbn [Nat.add].
  destruct (for_each (select_step peaks dm_range) (seq 0 k) None) as [b |];
    [| reflexivity].
  cbn [bind for_each]. now destruct (select_step peaks dm_range b k).
Qed.

(** Over indices inside both lists the selection loop does not raise. *)
Lemma select_prefix_returns (peaks dm_range : list R) (k : nat) :
  length dm_range = length peaks -> (k <= length peaks)%nat ->
  exists b, for_each (select_step peaks dm_range) (seq 0 k) None = Some b.
Proof.
  intros Hlen Hk. apply for_each_returns. intros b i Hin.
  apply in_seq in Hin. unfold select_step.
  destruct (nth_error peaks i) as [pk |] eqn:Hpk;
    [| apply nth_error_None in Hpk; lia].
  destruct peaks as [| p0 peaks']; [cbn in Hk; lia |].
  cbn [np_max bind].
  destruct (Req_dec_T pk (fold_left Rmax peaks' p0)); [| now eexists].
  destruct (nth_error dm_range i) as [d |] eqn:Hd;
    [now eexists | apply nth_error_None in Hd; cbn [length] in *; lia].
Qed.

Lemma Rmax_same (a : R) : Rmax a a = a.
Proof. apply Rmax_left. lra. Qed.

(** C3, the claim fails.  Two trial values tie at the maximal peak; the
    loop keeps overwriting [best_dm] and ends with the second one, 20, not
    with the first, 10. *)
Lemma best_dm_tie_counterexample :
  attains_max [1; 1] 0 /\ attains_max [1; 1] 1
  /\ nth_error [10; 20] 0 = Some 10
  /\ select_best_dm [1; 1] [10; 20] = Some (Some 20)
  /\ 10 <> 20.
Proof.
  assert (np_max [1; 1] = Some 1) as Hmax.
  { cbn [np_max fold_left]. now rewrite Rmax_same. }
  split; [exists 1; split; [exact Hmax | reflexivity] |].
  split; [exists 1; split; [exact Hmax | reflexivity] |].
  split; [reflexivity |]. split; [| lra].
  unfold select_best_dm. cbn [length seq for_each].
  unfold select_step. rewrite Hmax. cbn [nth_error bind].
  destruct (Req_dec_T 1 1) as [_ | Hn]; [| now elim Hn].
  reflexivity.
Qed.

(** C3, as amended.  When the peak list and [dm_range] have the same
    length, the selected [best_dm] is the trial value at the last index at
    which the averaged peak attains the maximum (last occurrence on
    ties). *)
Theorem best_dm_is_last_maximum (peaks dm_range : list R) (i : nat) (d : R) :
  length dm_range = length peaks ->
  attains_max peaks i ->
  (forall k, (i < k)%nat -> ~ attains_max peaks k) ->
  nth_error dm_range i = Some d ->
  select_best_dm peaks dm_range = Some (Some d).
Proof.
  intros Hlen [m [Hmax Hi]] Hlast Hd.
  assert (i < length peaks)%nat as Hlt
    by (apply nth_error_Some; rewrite Hi; discriminate).
  assert (forall k, (i < k <= length peaks)%nat ->
            for_each (select_step peaks dm_range) (seq 0 k) None
            = Some (Some d)) as Hprefix.
  { induction k as [| k IH]; intro Hk; [lia |].
    rewrite select_prefix_S.
    destruct (Nat.eq_dec k i) as [-> | Hne].
    - destruct (select_prefix_returns peaks dm_range i Hlen) as [b Hb]; [lia |].
      rewrite Hb. cbn [bind]. unfold select_step.
      rewrite Hi, Hmax. cbn [bind].
      destruct (Req_dec_T m m) as [_ | Hn]; [| now elim Hn].
      rewrite Hd. reflexivity.
    - rewrite IH by lia. cbn [bind]. unfold select_step.
      destruct (nth_error peaks k) as [pk |] eqn:Hpk;
        [| apply nth_error_None in Hpk; lia].
      rewrite Hmax. cbn [bind].
      destruct (Req_dec_T pk m) as [-> | _]; [| reflexivity].
      elim (Hlast k); [lia |]. exists m. now split. }
  unfold select_best_dm. apply Hprefix. lia.
Qed.

Lemma best_dm_is_last_maximum_witness :
  select_best_dm [1; 2; 2] [10; 20; 30] = Some (Some 30).
Proof.
  assert (np_max [1; 2; 2] = Some 2) as Hmax.
  { cbn [np_max fold_left]. rewrite (Rmax_right 1 2) by lra.
    now rewrite Rmax_same. }
  apply (best_dm_is_last_maximum [1; 2; 2] [10; 20; 30] 2 30).
  - reflexivity.
  - exists 2. split; [exact Hmax | reflexivity].
  - intros k Hk [m [_ Hm]].
    assert (k < length [1; 2; 2])%nat as Hlt
      by (apply (proj1 (nth_error_Some [1; 2; 2] k)); congruence).
    cbn [length] in Hlt. lia.
  - reflexivity.
Defined.

(** *** The DM search loop *)

Lemma mean_of_one_flat_profile : Sample.mean_profile [[1; 1]] = [1; 1].
Proof.
  unfold Sample.mean_profile. cbn [length seq map fold_right nth INR].
  f_equal; [lra | f_equal; lra].
Qed.

Lemma mean_with_reference_profile :
  Sample.mean_profile [[1; 1]; [0; 0]] = [1 / 2; 1 / 2].
Proof.
  unfold Sample.mean_profile. cbn [length seq map fold_right nth INR].
  f_equal; [lra | f_equal; lra].
Qed.

Lemma for_each_appends {A B : Type} (body : list B -> A -> option (list B))
  (l : list A) :
  (forall s a s', body s a = Some s' -> length s' = S (length s)) ->
  forall s s', for_each body l s = Some s' ->
               length s' = (length s + length l)%nat.
Proof.
  intro Hbody. induction l as [| a l IH]; intros s s' Hrun.
  - injection Hrun as <-. cbn [length]. lia.
  - cbn [for_each] in Hrun. apply bind_some in Hrun as [s1 [H1 Hrest]].
    rewrite (IH _ _ Hrest), (Hbody _ _ _ H1). cbn [length]. lia.
Qed.

(** For any number of channels, a completed pass of lines 212-215 holds
    [nch - 1] rolled profiles, one short of the channel count. *)
Lemma shifted_profile_length `{BeamModel} (nch : int) (t_res : R)
  (freq : list R) (profile : list (list R)) (dm_trial : R)
  (shifted : list (list R)) :
  shifted_profile nch t_res freq profile dm_trial = Some shifted ->
  length shifted = Z.to_nat (nch - 1).
Proof.
  intro Hrun. unfold shifted_profile in Hrun.
  apply for_each_appends in Hrun.
  - rewrite Hrun. unfold py_range. now rewrite length_map, length_seq.
  - intros s a s' Hstep. bind_inv Hstep. injection Hstep as <-.
    rewrite length_app. cbn [length]. lia.
Qed.

Lemma peak_of_flat_profile (a : R) : Sample.peak [a; a] = a.
Proof. unfold Sample.peak. cbn [np_max fold_left]. apply Rmax_same. Qed.

(** C4, at the failing input.  Two channels at 1 and 2 GHz, a flat profile
    of ones in the first and of zeros in the reference channel, one trial
    DM.  Whatever the delay function, the loop over [range(nch - 1)] rolls
    the first channel only: the recorded peak is 1, the peak of that one
    channel, where the average over both rolled channels has peak 1/2. *)
Theorem dm_search_leaves_out_reference_channel
  (shift : R -> R -> R -> R -> int) (t_res d : R) :
  shifted_profile (H := Sample.sample_bm ([], [], []) [] ([], []) ([], []) shift)
                  2 t_res [1; 2] [[1; 1]; [0; 0]] d
  = Some [[1; 1]]
  /\ option_map snd
       (dm_search (H := Sample.sample_bm ([], [], []) [] ([], []) ([], []) shift)
                  2 t_res [1; 2] [[1; 1]; [0; 0]] [d])
     = Some [1]
  /\ described_peak (H := Sample.sample_bm ([], [], []) [] ([], []) ([], []) shift)
                    2 t_res [1; 2] [[1; 1]; [0; 0]] d
     = Some (1 / 2).
Proof.
  assert (shifted_profile
            (H := Sample.sample_bm ([], [], []) [] ([], []) ([], []) shift)
            2 t_res [1; 2] [[1; 1]; [0; 0]] d = Some [[1; 1]]) as Hcode.
  { unfold shifted_profile.
    change (py_range (2 - 1)) with [0%Z].
    cbn [for_each].
    change (py_index [1; 2] (2 - 1)%Z) with (Some 2).
    change (py_index [1; 2] 0%Z) with (Some 1).
    change (py_index [[1; 1]; [0; 0]] 0%Z) with (Some [1; 1]).
    cbn [bind delay Sample.sample_bm app].
    change [1; 1] with (repeat 1 2). now rewrite roll_constant. }
  split; [exact Hcode |]. split.
  - unfold dm_search. cbn [length seq for_each nth_error bind].
    rewrite Hcode.
    cbn [bind fst snd app nth_error avg_prof find_peak Sample.sample_bm
         option_map].
    now rewrite mean_of_one_flat_profile, peak_of_flat_profile.
  - unfold described_peak, described_shifted_profile.
    change (py_range 2) with [0%Z; 1%Z].
    cbn [for_each].
    change (py_index [1; 2] (2 - 1)%Z) with (Some 2).
    change (py_index [1; 2] 0%Z) with (Some 1).
    change (py_index [1; 2] 1%Z) with (Some 2).
    change (py_index [[1; 1]; [0; 0]] 0%Z) with (Some [1; 1]).
    change (py_index [[1; 1]; [0; 0]] 1%Z) with (Some [0; 0]).
    cbn [bind delay Sample.sample_bm app].
    change [1; 1] with (repeat 1 2). change [0; 0] with (repeat 0 2).
    rewrite !roll_constant.
    cbn [repeat bind avg_prof find_peak Sample.sample_bm].
    now rewrite mean_with_reference_profile, peak_of_flat_profile.
Qed.

(** *** The widths written to the output record *)





(** The record written by a completed run, traced back to the extraction
    stage. *)
Lemma main_record `{BeamModel} (args : Args) (record : list R) :
  main args = Some record ->
  exists ch,
    extracted_channels args = Some ch
    /\ nth_error record 3 = py_index (w10 ch) 0%Z
    /\ nth_error record 4 = py_index (w10 ch) (-1)%Z.
Proof.
  intro Hrun. unfold main in Hrun. cbv zeta in Hrun.
  apply bind_some in Hrun as [freq [Hfreq Hrun]].
  apply bind_some in Hrun as [ch [Hch Hrun]].
  bind_inv Hrun. injection Hrun as <-.
  exists ch. split.
  - unfold extracted_channels. cbv zeta. rewrite Hfreq. exact Hch.
  - cbn [nth_error]. split; symmetry; assumption.
Qed.


(** Two completed runs on the one-channel command line: with the optional
    stages off, and with scattering and noise requested. *)

Ltac run_extraction :=
  cbv zeta;
  cbn [set_scatter_snr arg_p arg_nc arg_npatch arg_iseed arg_hmin arg_hmax
       arg_alpha arg_beta arg_snr arg_dm arg_do_ab arg_nch arg_min_freq
       arg_chbw arg_scatter arg_doFan arg_outfile];
  unfold linspace_int; change (1 <? 0)%Z with false; cbv iota;
  change (Z.to_nat 1) with 1%nat;
  unfold linspace at 1; cbn [seq map bind];
  unfold profiles_per_frequency; cbn [for_each];
  unfold frequency_step at 1; cbv zeta;
  unfold generateBeam; cbv zeta;
  unfold Sample.one_patch_model;
  cbn [patch_width los patch_center aberration emission_height height_f
       Sample.sample_bm fst snd length seq for_each component_update
       nth_error bind combine patch_update map];
  rewrite x_index_at_0, y_index_at_0;
  unfold gather; cbn [broadcast length Nat.eqb combine bind gather_pairs];
  change (axis_index res 500) with (Some 500%nat);
  cbn [bind fst snd w10 prof beam app find_width Sample.sample_bm length].

Ltac run_dm_fit pv f0 :=
  change (py_index [[pv]] (1 - 1)%Z) with (Some [pv]);
  change (py_index [[pv]] 0%Z) with (Some [pv]);
  change (py_index [f0] (1 - 1)%Z) with (Some f0);
  change (py_index [f0] 0%Z) with (Some f0);
  change (py_index [INR 1] 0%Z) with (Some (INR 1));
  change (py_index [INR 1] (-1)%Z) with (Some (INR 1));
  cbn [bind find_delta_dm find_phase_bin Sample.sample_bm];
  unfold dm_search; cbn [length seq for_each nth_error bind];
  unfold shifted_profile; change (py_range (1 - 1)) with (@nil int);
  cbn [for_each bind fst snd app nth_error avg_prof find_peak
       Sample.sample_bm];
  unfold select_best_dm; cbn [length seq for_each]; unfold select_step;
  cbn [nth_error bind np_max fold_left];
  destruct (Req_dec_T _ _) as [_ | Hn]; [| now elim Hn];
  reflexivity.

Lemma one_channel_run :
  main (H := Sample.one_patch_model) Sample.one_channel_args
  = Some [1; 45; 5; INR 1; INR 1; 4; 0].
Proof.
  unfold main, Sample.one_channel_args. run_extraction.
  set (pv := zeros_like X 500%nat 500%nat + _).
  set (f0 := 1 + INR 0 * _).
  unfold scattering_stage. cbv zeta. cbn [bind snd].
  unfold noise_stage.
  cbn [length seq for_each nth_error bind app find_peak Sample.sample_bm].
  run_dm_fit pv f0.
Qed.



End MainProps.

(** ** More on the rotating vector model *)

Module RvmMore.

Import Rvm NumpyFacts RvmProps.

Lemma restrict_psi_fin_is_fin (p : R) : exists q, restrict_psi (Fin p) = Fin q.
Proof.
  rewrite restrict_psi_fin.
  destruct (Rlt_dec p (- PI / 2)).
  - destruct (Rlt_dec (PI / 2) (p + PI)); eexists; reflexivity.
  - destruct (Rlt_dec (PI / 2) p); eexists; reflexivity.
Qed.

Lemma rvm_psi_cases (alpha zeta phi0 psi0 phi : R) :
  (rvm_numer alpha phi0 phi = 0 /\ rvm_denom alpha zeta phi0 phi = 0
   /\ rvm_psi alpha zeta phi0 psi0 phi = NaN)
  \/ (~ (rvm_numer alpha phi0 phi = 0 /\ rvm_denom alpha zeta phi0 phi = 0)
      /\ exists p, rvm_psi alpha zeta phi0 psi0 phi = Fin p).
Proof.
  unfold rvm_psi, np_div.
  destruct (Req_dec_T (rvm_denom alpha zeta phi0 phi) 0) as [Hd | Hd].
  - destruct (Req_dec_T (rvm_numer alpha phi0 phi) 0) as [Hn | Hn].
    + left. now repeat split.
    + right. split; [tauto |].
      destruct (Rlt_dec 0 (rvm_numer alpha phi0 phi)); eexists; reflexivity.
  - right. split; [tauto |]. eexists. reflexivity.
Qed.

Lemma rvm_point_nan_iff (alpha zeta phi0 psi0 x : R) :
  rvm_point alpha zeta phi0 psi0 x = NaN
  <-> rvm_numer alpha phi0 (deg2rad x) = 0
      /\ rvm_denom alpha zeta phi0 (deg2rad x) = 0.
Proof.
  unfold rvm_point. cbv zeta.
  destruct (rvm_psi_cases alpha zeta phi0 psi0 (deg2rad x))
    as [[Hn [Hd ->]] | [Hnot [p ->]]].
  - split; [intros _; now split | reflexivity].
  - destruct (restrict_psi_fin_is_fin p) as [q ->]. cbn [np_rad2deg].
    split; [discriminate | intro H; now elim Hnot].
Qed.

(** X1.  [rvm] returns exactly one position angle per entry of [xprof],
    in the same order: the list returned is the list of the angles that
    the loop body of lines 37-51 computes for [xprof[0]], [xprof[1]], ...,
    each from its own entry alone, so the two lists have the same length;
    an empty [xprof] gives an empty list. *)
Theorem rvm_one_angle_per_sample (alpha beta phi0 psi0 psi : R)
  (xprof : list R) :
  rvm alpha beta phi0 psi0 psi xprof
  = map (rvm_point alpha (alpha + beta) phi0 psi0) xprof
  /\ Forall2 (fun x angle => angle = rvm_point alpha (alpha + beta) phi0 psi0 x)
             xprof (rvm alpha beta phi0 psi0 psi xprof)
  /\ length (rvm alpha beta phi0 psi0 psi xprof) = length xprof
  /\ rvm alpha beta phi0 psi0 psi [] = [].
Proof.
  rewrite rvm_is_map. split; [reflexivity |].
  split; [| split; [apply length_map | reflexivity]].
  induction xprof as [| x xprof IH]; cbn [map]; constructor;
    [reflexivity | exact IH].
Qed.

(** X2.  The list returned by [rvm] contains NaN exactly when, at some
    sample of [xprof], the numerator and the denominator of the quotient
    are both zero. *)
Theorem rvm_nan_iff_zero_over_zero (alpha beta phi0 psi0 psi : R)
  (xprof : list R) :
  In NaN (rvm alpha beta phi0 psi0 psi xprof)
  <-> exists x, In x xprof
                /\ rvm_numer alpha phi0 (deg2rad x) = 0
                /\ rvm_denom alpha (alpha + beta) phi0 (deg2rad x) = 0.
Proof.
  rewrite rvm_is_map, in_map_iff. split.
  - intros [x [Hx Hin]]. exists x. split; [exact Hin |].
    exact (proj1 (rvm_point_nan_iff _ _ _ _ _) Hx).
  - intros [x [Hin H]]. exists x. split; [| exact Hin].
    exact (proj2 (rvm_point_nan_iff _ _ _ _ _) H).
Qed.

(** The range restriction moves an angle by a whole number of half turns:
    none, one forward or one back. *)
Lemma restrict_psi_shift (v : npfloat) :
  exists k : int,
    (-1 <= k <= 1)%Z /\ restrict_psi v = np_add v (Fin (IZR k * PI)).
Proof.
  destruct v as [p | | |].
  - rewrite restrict_psi_fin. cbn [np_add].
    destruct (Rlt_dec p (- PI / 2)).
    + destruct (Rlt_dec (PI / 2) (p + PI)).
      * exists 0%Z. split; [lia |]. f_equal. lra.
      * exists 1%Z. split; [lia |]. f_equal. lra.
    + destruct (Rlt_dec (PI / 2) p).
      * exists (-1)%Z. split; [lia |]. f_equal. lra.
      * exists 0%Z. split; [lia |]. f_equal. lra.
  - exists 0%Z. split; [lia | reflexivity].
  - exists 0%Z. split; [lia | reflexivity].
  - exists 0%Z. split; [lia | reflexivity].
Qed.

Lemma rad2deg_half_turns (p : R) (k : int) :
  rad2deg (p + IZR k * PI) = rad2deg p + IZR k * 180.
Proof. unfold rad2deg. pose proof PI_RGT_0. field. lra. Qed.

Lemma np_rad2deg_half_turns (v : npfloat) (k : int) :
  np_rad2deg (np_add v (Fin (IZR k * PI)))
  = np_add (np_rad2deg v) (Fin (IZR k * 180)).
Proof.
  destruct v; cbn [np_add np_rad2deg]; try reflexivity.
  now rewrite rad2deg_half_turns.
Qed.

(** X3.  Every angle [rvm] returns is the angle of line 41,
    [psi0 + arctan(numer/denom)], converted to degrees and moved by
    -180, 0 or +180 degrees: the wrap never changes the angle modulo a
    half turn. *)
Theorem rvm_wrap_is_half_turns (alpha beta phi0 psi0 psi : R)
  (xprof : list R) :
  Forall2
    (fun x v =>
       exists k : int,
         (-1 <= k <= 1)%Z
         /\ v = np_add
                  (np_rad2deg
                     (rvm_psi alpha (alpha + beta) phi0 psi0 (deg2rad x)))
                  (Fin (IZR k * 180)))
    xprof (rvm alpha beta phi0 psi0 psi xprof).
Proof.
  rewrite rvm_is_map.
  induction xprof as [| x xprof IH]; [constructor |].
  cbn [map]. constructor; [| exact IH].
  unfold rvm_point. cbv zeta.
  destruct (restrict_psi_shift
              (rvm_psi alpha (alpha + beta) phi0 psi0 (deg2rad x)))
    as [k [Hk ->]].
  exists k. split; [exact Hk | apply np_rad2deg_half_turns].
Qed.

Lemma rvm_point_zero_numerator (alpha zeta phi0 psi0 x : R) :
  rvm_numer alpha phi0 (deg2rad x) = 0 ->
  rvm_denom alpha zeta phi0 (deg2rad x) <> 0 ->
  rvm_point alpha zeta phi0 psi0 x = np_rad2deg (restrict_psi (Fin psi0)).
Proof.
  intros Hn Hd. unfold rvm_point, rvm_psi. cbv zeta.
  rewrite np_div_nonzero by exact Hd. rewrite Hn.
  unfold Rdiv. rewrite Rmult_0_l. cbn [np_arctan np_add].
  now rewrite atan_0, Rplus_0_r.
Qed.

(** X4.  For an aligned rotator, [sin(alpha) = 0], with non-zero
    denominators the numerator vanishes at every phase and the returned
    swing is flat: every entry is the wrapped [psi0]. *)
Theorem rvm_flat_when_aligned (alpha beta phi0 psi0 psi : R)
  (xprof : list R) :
  sin alpha = 0 ->
  Forall (fun x => rvm_denom alpha (alpha + beta) phi0 (deg2rad x) <> 0)
         xprof ->
  rvm alpha beta phi0 psi0 psi xprof
  = map (fun _ => np_rad2deg (restrict_psi (Fin psi0))) xprof.
Proof.
  intros Hs Hden. rewrite rvm_is_map.
  induction Hden as [| x xprof Hd _ IH]; [reflexivity |].
  cbn [map]. rewrite IH. f_equal.
  apply rvm_point_zero_numerator; [| exact Hd].
  unfold rvm_numer. rewrite Hs. lra.
Qed.

Lemma rvm_flat_when_aligned_witness :
  rvm 0 1 0 0 0 [0; 90]
  = map (fun _ => np_rad2deg (restrict_psi (Fin 0))) [0; 90].
Proof.
  pose proof PI_RGT_0 as Hpi. pose proof PI2_1 as Hpi1.
  assert (0 < sin 1) as Hsin by (apply sin_gt_0; lra).
  assert (forall x, rvm_denom 0 (0 + 1) 0 (deg2rad x) <> 0) as Hden.
  { intro x. unfold rvm_denom. rewrite sin_0, cos_0.
    replace (0 + 1) with 1 by lra. lra. }
  apply (rvm_flat_when_aligned 0 1 0 0 0 [0; 90]).
  - exact sin_0.
  - repeat constructor; apply Hden.
Defined.

Lemma deg2rad_full_turn (x : R) : deg2rad (x + 360) = deg2rad x + 2 * PI.
Proof. unfold deg2rad. field. Qed.

Lemma rvm_point_full_turn (alpha zeta phi0 psi0 x : R) :
  rvm_point alpha zeta phi0 psi0 (x + 360) = rvm_point alpha zeta phi0 psi0 x.
Proof.
  unfold rvm_point, rvm_psi, rvm_numer, rvm_denom. cbv zeta.
  rewrite deg2rad_full_turn.
  replace (deg2rad x + 2 * PI - phi0)
    with (deg2rad x - phi0 + 2 * INR 1 * PI) by (cbn [INR]; lra).
  now rewrite sin_period, cos_period.
Qed.

(** X5.  The predicted swing has period 360 degrees in the phase: moving
    every entry of [xprof] by a full turn leaves the returned list
    unchanged. *)
Theorem rvm_period_360 (alpha beta phi0 psi0 psi : R) (xprof : list R) :
  rvm alpha beta phi0 psi0 psi (map (fun x => x + 360) xprof)
  = rvm alpha beta phi0 psi0 psi xprof.
Proof.
  rewrite !rvm_is_map, map_map. apply map_ext.
  intro x. apply rvm_point_full_turn.
Qed.

Lemma rvm_denom_at_fiducial (alpha beta phi0 : R) :
  rvm_denom alpha (alpha + beta) phi0 phi0 = sin beta.
Proof.
  unfold rvm_denom. rewrite Rminus_diag, cos_0.
  replace beta with (alpha + beta - alpha) at 3 by lra.
  rewrite sin_minus. lra.
Qed.

(** X6.  At the fiducial phase, where the converted sample equals [phi0],
    and for [sin(beta) <> 0], the returned angle is the wrapped [psi0]:
    the numerator is zero and the denominator is [sin(beta)]. *)
Theorem rvm_at_fiducial_phase (alpha beta phi0 psi0 psi : R)
  (xprof : list R) (k : nat) (x : R) :
  nth_error xprof k = Some x ->
  deg2rad x = phi0 ->
  sin beta <> 0 ->
  nth_error (rvm alpha beta phi0 psi0 psi xprof) k
  = Some (np_rad2deg (restrict_psi (Fin psi0))).
Proof.
  intros Hk Hx Hb. rewrite rvm_is_map, nth_error_map, Hk. cbn [option_map].
  f_equal. apply rvm_point_zero_numerator.
  - unfold rvm_numer. rewrite Hx, Rminus_diag, sin_0. lra.
  - rewrite Hx, rvm_denom_at_fiducial. exact Hb.
Qed.

Lemma rvm_at_fiducial_phase_witness :
  nth_error (rvm 2 1 0 3 0 [90; 0]) 1
  = Some (np_rad2deg (restrict_psi (Fin 3))).
Proof.
  pose proof PI_RGT_0 as Hpi. pose proof PI2_1 as Hpi1.
  assert (0 < sin 1) as Hsin by (apply sin_gt_0; lra).
  apply (rvm_at_fiducial_phase 2 1 0 3 0 [90; 0] 1 0).
  - reflexivity.
  - unfold deg2rad. lra.
  - lra.
Defined.

End RvmMore.

(** ** More on the beam synthesizer and the profile extractor *)

Module BeamMore.

Import Beam Derived NumpyFacts BeamProps.

(** A loop raises when one of its iterations raises in every state. *)
Lemma for_each_raises {A S : Type} (body : S -> A -> option S) (l : list A)
  (a : A) :
  In a l -> (forall s, body s a = None) ->
  forall s, for_each body l s = None.
Proof.
  intros Hin Hnone. induction l as [| b l IH]; intro s; [contradiction |].
  cbn [for_each]. destruct Hin as [-> | Hin].
  - now rewrite Hnone.
  - destruct (body s b); [apply IH; exact Hin | reflexivity].
Qed.

(** A quantity that grows by at most [w a] in the iteration for [a] grows
    by at most the sum of the [w a] over the loop. *)
Lemma for_each_growth {A S : Type} (f : S -> R) (w : A -> R)
  (body : S -> A -> option S) (l : list A) :
  (forall s a s', In a l -> body s a = Some s' -> f s' <= f s + w a) ->
  forall s s', for_each body l s = Some s' -> f s' <= f s + Rsum (map w l).
Proof.
  induction l as [| a l IH]; intros Hbody s s' Hrun.
  - injection Hrun as <-. cbn. lra.
  - cbn [for_each] in Hrun. apply bind_some in Hrun as [s1 [H1 Hrest]].
    pose proof (Hbody s a s1 (or_introl eq_refl) H1) as Hstep.
    pose proof (IH (fun s0 a0 s0' Hin => Hbody s0 a0 s0' (or_intror Hin))
                   s1 s' Hrest) as Htail.
    cbn [map Rsum fold_right]. fold (Rsum (map w l)). lra.
Qed.

Lemma Rsum_ones {A : Type} (l : list A) :
  Rsum (map (fun _ => 1) l) = INR (length l).
Proof.
  induction l as [| a l IH]; [reflexivity |].
  cbn [map Rsum fold_right length]. fold (Rsum (map (fun _ : A => 1) l)).
  rewrite IH, S_INR. lra.
Qed.

Lemma Rsum_permutation (l l' : list R) :
  Permutation l l' -> Rsum l = Rsum l'.
Proof.
  induction 1 as [| a l l' _ IH | a b l | l l' l'' _ IH1 _ IH2].
  - reflexivity.
  - cbn [Rsum fold_right]. fold (Rsum l) (Rsum l'). now rewrite IH.
  - cbn [Rsum fold_right]. lra.
  - now rewrite IH1.
Qed.

(** *** One patch, in closed form *)

Lemma patch_update_term (do_ab : option string) (ab_xofset ab_yofset : list R)
  (cid : nat) (sigma : R) (Z Z' : array2) (pc : R * R) :
  patch_update do_ab ab_xofset ab_yofset cid sigma sigma Z pc = Some Z' ->
  forall i j,
    Z' i j
    = Z i j + patch_term (kernel_shift do_ab ab_xofset ab_yofset cid)
                         sigma pc i j.
Proof.
  unfold patch_update, patch_term, kernel_shift. cbv zeta.
  destruct do_ab as [flag |].
  - intros H i j.
    apply bind_some in H as [abx [Hx H]].
    apply bind_some in H as [aby [Hy H]].
    injection H as <-. cbn [fst snd].
    now rewrite (nth_error_nth _ _ 0 Hx), (nth_error_nth _ _ 0 Hy).
  - intros H i j. injection H as <-. cbn [fst snd].
    now rewrite !Rminus_0_r.
Qed.

Lemma cutoff_le_1 (d : R) : cutoff d <= 1.
Proof.
  unfold cutoff, peakAmp.
  destruct (Rgt_dec d 3).
  - destruct (Req_dec_T 0 0); lra.
  - destruct (Req_dec_T d 0); lra.
Qed.

Lemma square_over_width_nonneg (a s : R) :
  0 < s -> 0 <= a ^ 2 / (2 * s ^ 2).
Proof.
  intro Hs. unfold Rdiv. apply Rmult_le_pos; [apply pow2_ge_0 |].
  apply Rlt_le, Rinv_0_lt_compat.
  assert (0 < s ^ 2) by (apply pow_lt; exact Hs). lra.
Qed.

Lemma gaussian_le_1 (a b s : R) :
  0 < s -> exp (- (a ^ 2 / (2 * s ^ 2) + b ^ 2 / (2 * s ^ 2))) <= 1.
Proof.
  intro Hs.
  pose proof (square_over_width_nonneg a s Hs) as Ha.
  pose proof (square_over_width_nonneg b s Hs) as Hb.
  rewrite <- exp_0.
  destruct (Req_dec_T (a ^ 2 / (2 * s ^ 2) + b ^ 2 / (2 * s ^ 2)) 0) as [-> | Hne].
  - rewrite Ropp_0. lra.
  - apply Rlt_le, exp_increasing. lra.
Qed.

Lemma patch_term_bounds (shift : R * R) (sigma : R) (pc : R * R) (i j : nat) :
  0 < sigma -> 0 <= patch_term shift sigma pc i j <= 1.
Proof.
  intro Hs. unfold patch_term, distance_mask.
  set (m := cutoff _). set (g := exp _).
  assert (0 <= m <= 1) as Hm by (split; [apply cutoff_nonneg | apply cutoff_le_1]).
  assert (0 < g <= 1) as Hg
    by (split; [apply exp_pos | apply gaussian_le_1; exact Hs]).
  split; [apply Rmult_le_pos; lra |].
  replace 1 with (1 * 1) by lra. apply Rmult_le_compat; lra.
Qed.

(** X7.  For a positive width, one pass of the patch loop adds the full
    Gaussian, centred on the patch centre moved by the aberration offset
    when [do_ab] is set, at every cell whose distance from the nominal
    centre is positive and at most three widths, and adds nothing at the
    cells farther away and at a cell lying exactly on the nominal
    centre. *)
Theorem patch_adds_gaussian_within_three_widths (do_ab : option string)
  (ab_xofset ab_yofset : list R) (cid : nat) (sigma : R) (Z Z' : array2)
  (pc : R * R) (i j : nat) :
  0 < sigma ->
  patch_update do_ab ab_xofset ab_yofset cid sigma sigma Z pc = Some Z' ->
  (0 < sqrt ((X i j - fst pc) ^ 2 + (Y i j - snd pc) ^ 2) <= 3 * sigma ->
   Z' i j
   = Z i j
     + exp (- ((X i j - fst pc
                - fst (kernel_shift do_ab ab_xofset ab_yofset cid)) ^ 2
               / (2 * sigma ^ 2)
               + (Y i j - snd pc
                  - snd (kernel_shift do_ab ab_xofset ab_yofset cid)) ^ 2
                 / (2 * sigma ^ 2))))
  /\ (sqrt ((X i j - fst pc) ^ 2 + (Y i j - snd pc) ^ 2) = 0
      \/ 3 * sigma < sqrt ((X i j - fst pc) ^ 2 + (Y i j - snd pc) ^ 2) ->
      Z' i j = Z i j).
Proof.
  intros Hs Hup. rewrite (patch_update_term _ _ _ _ _ _ _ _ Hup i j).
  unfold patch_term, distance_mask.
  set (d := sqrt ((X i j - fst pc) ^ 2 + (Y i j - snd pc) ^ 2)).
  assert (0 < / sigma) as Hinv by (apply Rinv_0_lt_compat; exact Hs).
  split.
  - intros [Hpos Hle]. rewrite cutoff_within; [lra | |].
    + unfold Rdiv. replace 3 with (3 * sigma * / sigma) by (field; lra).
      apply Rmult_le_compat_r; lra.
    + unfold Rdiv. apply Rgt_not_eq. apply Rmult_lt_0_compat; assumption.
  - intros [Hzero | Hfar].
    + rewrite Hzero. unfold Rdiv. rewrite Rmult_0_l, cutoff_at_zero. lra.
    + rewrite cutoff_beyond; [lra |].
      unfold Rdiv. replace 3 with (3 * sigma * / sigma) by (field; lra).
      apply Rmult_lt_compat_r; assumption.
Qed.

Lemma patch_adds_gaussian_within_three_widths_witness :
  exists Z',
    patch_update None [] [] 0 1 1 (zeros_like X) (0, 0) = Some Z'
    /\ Z' 0%nat 0%nat = zeros_like X 0%nat 0%nat.
Proof.
  eexists. split; [reflexivity |].
  refine (proj2 (patch_adds_gaussian_within_three_widths
                   None [] [] 0 1 (zeros_like X) _ (0, 0) 0 0 _ eq_refl) _).
  - lra.
  - right. cbn [fst snd]. rewrite X_first, Y_first, Rmult_1_r.
    apply sqrt_above_3. lra.
Defined.

(** *** The loop over the patches of one component *)

Lemma patch_loop_closed (do_ab : option string) (ab_xofset ab_yofset : list R)
  (cid : nat) (sigma : R) (patches : list (R * R)) :
  forall Z Z' : array2,
    for_each (patch_update do_ab ab_xofset ab_yofset cid sigma sigma)
             patches Z = Some Z' ->
    forall i j,
      Z' i j
      = Z i j
        + Rsum (map (fun pc =>
                       patch_term (kernel_shift do_ab ab_xofset ab_yofset cid)
                                  sigma pc i j) patches).
Proof.
  induction patches as [| pc patches IH]; intros Z Z' Hrun i j.
  - injection Hrun as <-. cbn. lra.
  - cbn [for_each] in Hrun. apply bind_some in Hrun as [Z1 [H1 Hrest]].
    rewrite (IH Z1 Z' Hrest i j), (patch_update_term _ _ _ _ _ _ _ _ H1 i j).
    cbn [map Rsum fold_right]. unfold Rsum. lra.
Qed.

(** Whether a pass of the patch loop raises depends on the flag and the
    offsets only, not on the field or the patch. *)
Lemma patch_update_ready (do_ab : option string) (ab_xofset ab_yofset : list R)
  (cid : nat) (sigma : R) (Z Z' : array2) (pc : R * R) :
  patch_update do_ab ab_xofset ab_yofset cid sigma sigma Z pc = Some Z' ->
  forall (Z0 : array2) (pc0 : R * R),
    exists Z1,
      patch_update do_ab ab_xofset ab_yofset cid sigma sigma Z0 pc0 = Some Z1.
Proof.
  unfold patch_update. cbv zeta. destruct do_ab as [flag |].
  - intros H Z0 pc0.
    apply bind_some in H as [abx [Hx H]].
    apply bind_some in H as [aby [Hy _]].
    rewrite Hx, Hy. cbn [bind]. eexists. reflexivity.
  - intros _ Z0 pc0. eexists. reflexivity.
Qed.

(** X8.  Within a component the patches superpose in any order: when the
    loop over one list of patch centres completes, the loop over any
    permutation of that list completes too and yields the same value at
    every cell. *)
Theorem patches_superpose_in_any_order (do_ab : option string)
  (ab_xofset ab_yofset : list R) (cid : nat) (sigma : R)
  (patches patches' : list (R * R)) (Z Z1 : array2) :
  Permutation patches patches' ->
  for_each (patch_update do_ab ab_xofset ab_yofset cid sigma sigma)
           patches Z = Some Z1 ->
  exists Z2,
    for_each (patch_update do_ab ab_xofset ab_yofset cid sigma sigma)
             patches' Z = Some Z2
    /\ forall i j, Z2 i j = Z1 i j.
Proof.
  intros Hperm Hrun.
  destruct (for_each_returns
              (patch_update do_ab ab_xofset ab_yofset cid sigma sigma)
              patches') with (s := Z) as [Z2 Hrun'].
  { intros Z0 pc0 Hin.
    destruct patches as [| pc rest].
    - apply Permutation_nil in Hperm. subst patches'. contradiction.
    - cbn [for_each] in Hrun. apply bind_some in Hrun as [Za [Ha _]].
      exact (patch_update_ready _ _ _ _ _ _ _ _ Ha Z0 pc0). }
  exists Z2. split; [exact Hrun' |]. intros i j.
  rewrite (patch_loop_closed _ _ _ _ _ _ _ _ Hrun' i j),
          (patch_loop_closed _ _ _ _ _ _ _ _ Hrun i j).
  f_equal. symmetry. apply Rsum_permutation. now apply Permutation_map.
Qed.

Lemma patches_superpose_in_any_order_witness :
  exists Z2,
    for_each (patch_update None [] [] 0 1 1) [(5, 6); (1, 2)] (zeros_like X)
    = Some Z2
    /\ forall i j,
         Z2 i j
         = zeros_like X i j
           + distance_mask 1 (1, 2) i j
             * exp (- ((X i j - 1) ^ 2 / (2 * 1 ^ 2)
                       + (Y i j - 2) ^ 2 / (2 * 1 ^ 2)))
           + distance_mask 1 (5, 6) i j
             * exp (- ((X i j - 5) ^ 2 / (2 * 1 ^ 2)
                       + (Y i j - 6) ^ 2 / (2 * 1 ^ 2))).
Proof.
  apply (patches_superpose_in_any_order
           None [] [] 0 1 [(1, 2); (5, 6)] [(5, 6); (1, 2)] (zeros_like X)).
  - apply perm_swap.
  - reflexivity.
Defined.

(** *** Bounds on the field and on the profile *)

Lemma Rsum_le {A : Type} (f g : A -> R) (l : list A) :
  (forall a, f a <= g a) -> Rsum (map f l) <= Rsum (map g l).
Proof.
  intro H. induction l as [| a l IH]; [cbn; lra |].
  cbn [map Rsum fold_right]. fold (Rsum (map f l)) (Rsum (map g l)).
  pose proof (H a). lra.
Qed.

Lemma Rsum_of_counts {A : Type} (h : A -> nat) (l : list A) :
  Rsum (map (fun a => INR (h a)) l) = INR (fold_right Nat.add 0%nat (map h l)).
Proof.
  induction l as [| a l IH]; [reflexivity |].
  cbn [map Rsum fold_right]. fold (Rsum (map (fun a0 => INR (h a0)) l)).
  rewrite IH, plus_INR. reflexivity.
Qed.

Lemma component_update_growth (do_ab : option string) (patchwidths : list R)
  (centerx centery : list (list R)) (ab_xofset ab_yofset : list R)
  (Z Z' : array2) (cid : nat) (i j : nat) :
  Forall (fun sigma => 0 < sigma) patchwidths ->
  component_update do_ab patchwidths centerx centery ab_xofset ab_yofset Z cid
  = Some Z' ->
  Z' i j
  <= Z i j + INR (length (combine (nth cid centerx []) (nth cid centery []))).
Proof.
  intros Hpos H. unfold component_update in H.
  apply bind_some in H as [sigmax [Hsx H]].
  apply bind_some in H as [sigmay [Hsy H]].
  apply bind_some in H as [cxs [Hcx H]].
  apply bind_some in H as [cys [Hcy H]].
  assert (sigmay = sigmax) as -> by congruence.
  rewrite (nth_error_nth _ _ [] Hcx), (nth_error_nth _ _ [] Hcy).
  rewrite (patch_loop_closed _ _ _ _ _ _ _ _ H i j), <- Rsum_ones.
  apply Rplus_le_compat_l, Rsum_le. intro pc. apply patch_term_bounds.
  rewrite Forall_forall in Hpos. apply Hpos. exact (nth_error_In _ _ Hsx).
Qed.

Lemma gather_pairs_values (Z : array2) (idx : list (int * int)) :
  forall prof, gather_pairs Z idx = Some prof ->
               Forall (fun v => exists i j, v = Z i j) prof.
Proof.
  induction idx as [| [ix iy] idx IH]; intros prof H.
  - injection H as <-. constructor.
  - cbn [gather_pairs] in H.
    apply bind_some in H as [i [_ H]].
    apply bind_some in H as [j [_ H]].
    apply bind_some in H as [rest [Hrest H]].
    injection H as <-. constructor; [now exists i, j | now apply IH].
Qed.

(** X9.  When [generateBeam] returns, with positive patch widths, no cell
    of the field exceeds the number of patches visited by the loops, and
    every sample of the returned profile lies between zero and that
    number: each patch adds a value between 0 and 1. *)
Theorem beam_and_profile_bounded_by_patch_count `{BeamModel}
  (P alpha beta freq dm : R) (heights : list R) (npatch : int)
  (snr : option R) (do_ab : option string) (iseed : int)
  (fanBeam : option string) (prof : list R) (Z : array2) :
  Forall (fun sigma => 0 < sigma) (patch_width P heights) ->
  generateBeam P alpha beta freq dm heights npatch snr do_ab iseed fanBeam
  = Some (prof, Z) ->
  (forall i j : nat,
      Z i j
      <= INR (patch_count (length heights)
                          (fst (patch_center P heights npatch iseed fanBeam))
                          (snd (patch_center P heights npatch iseed fanBeam))))
  /\ Forall
       (fun v =>
          0 <= v
          <= INR (patch_count (length heights)
                    (fst (patch_center P heights npatch iseed fanBeam))
                    (snd (patch_center P heights npatch iseed fanBeam))))
       prof.
Proof.
  intros Hpos Hrun. unfold generateBeam in Hrun. cbv zeta in Hrun.
  apply bind_some in Hrun as [Z0 [Hloop Hrun]].
  apply bind_some in Hrun as [prof0 [Hgather Hrun]].
  injection Hrun as <- <-.
  assert (forall i j : nat,
             0 <= Z0 i j
             <= INR (patch_count (length heights)
                       (fst (patch_center P heights npatch iseed fanBeam))
                       (snd (patch_center P heights npatch iseed fanBeam))))
    as Hcell.
  { intros i j. split.
    - revert Hloop.
      apply (for_each_invariant (fun Zs : array2 => 0 <= Zs i j));
        [| unfold zeros_like; lra].
      intros Zs cid Zs' _ HZs.
      apply (component_update_inv (fun Za : array2 => 0 <= Za i j));
        [| exact HZs].
      intros sigma cxs cys pc Za Zb _ _ _ _ HZa Hup.
      exact (patch_update_nonneg _ _ _ _ _ _ _ _ _ _ _ Hup HZa).
    - pose proof (for_each_growth (fun Zs : array2 => Zs i j)
                    (fun cid =>
                       INR (length
                              (combine
                                 (nth cid (fst (patch_center P heights npatch
                                                  iseed fanBeam)) [])
                                 (nth cid (snd (patch_center P heights npatch
                                                  iseed fanBeam)) []))))
                    _ _
                    (fun Zs cid Zs' _ Hstep =>
                       component_update_growth _ _ _ _ _ _ _ _ _ i j Hpos
                                               Hstep)
                    _ _ Hloop) as Hsum.
      cbv beta in Hsum. rewrite Rsum_of_counts in Hsum.
      unfold zeros_like in Hsum. unfold patch_count. lra. }
  split; [intros i j; apply Hcell |].
  unfold gather in Hgather. apply bind_some in Hgather as [idx [_ Hpairs]].
  apply gather_pairs_values in Hpairs.
  revert Hpairs. apply Forall_impl. intros v [i [j ->]]. apply Hcell.
Qed.

Lemma one_patch_beam :
  generateBeam (H := Sample.one_patch_model) 1 45 5 1 1 [1] 10 None None 4 None
  = Some ([zeros_like X 500%nat 500%nat
           + distance_mask 1 (0, 0) 500%nat 500%nat
             * exp (- ((X 500%nat 500%nat - fst (0, 0)) ^ 2 / (2 * 1 ^ 2)
                       + (Y 500%nat 500%nat - snd (0, 0)) ^ 2 / (2 * 1 ^ 2)))],
          fun i j =>
            zeros_like X i j
            + distance_mask 1 (0, 0) i j
              * exp (- ((X i j - fst (0, 0)) ^ 2 / (2 * 1 ^ 2)
                        + (Y i j - snd (0, 0)) ^ 2 / (2 * 1 ^ 2)))).
Proof.
  unfold generateBeam. cbv zeta. unfold Sample.one_patch_model.
  cbn [patch_width los patch_center aberration Sample.sample_bm fst snd
       length seq for_each component_update nth_error bind combine
       patch_update map].
  rewrite x_index_at_0, y_index_at_0.
  unfold gather. cbn [broadcast length Nat.eqb combine bind gather_pairs].
  change (axis_index res 500) with (Some 500%nat).
  reflexivity.
Qed.

Lemma one_patch_width_positive :
  Forall (fun sigma => 0 < sigma)
         (patch_width (BeamModel := Sample.one_patch_model) 1 [1]).
Proof.
  cbn [patch_width Sample.one_patch_model Sample.sample_bm].
  constructor; [lra | constructor].
Qed.

Lemma beam_and_profile_bounded_by_patch_count_witness :
  exists prof Z,
    generateBeam (H := Sample.one_patch_model) 1 45 5 1 1 [1] 10 None None 4
                 None
    = Some (prof, Z)
    /\ Forall (fun v => 0 <= v <= INR 1) prof.
Proof.
  eexists. eexists. split; [exact one_patch_beam |].
  exact (proj2 (beam_and_profile_bounded_by_patch_count
                  (H := Sample.one_patch_model)
                  1 45 5 1 1 [1] 10 None None 4 None _ _
                  one_patch_width_positive one_patch_beam)).
Defined.

(** X28.  Whenever [generateBeam] returns, with positive patch widths, the
    field [Z] is non-negative at every cell, and it is exactly zero at
    every cell that lies farther than three widths from every nominal
    patch centre of every component: the centres as [bm.patch_center]
    returns them, before any aberration offset, with or without
    aberration. *)
Theorem beam_nonnegative_and_zero_outside_patches `{BeamModel}
  (P alpha beta freq dm : R) (heights : list R) (npatch : int)
  (snr : option R) (do_ab : option string) (iseed : int)
  (fanBeam : option string) (prof : list R) (Z : array2) :
  Forall (fun sigma => 0 < sigma) (patch_width P heights) ->
  generateBeam P alpha beta freq dm heights npatch snr do_ab iseed fanBeam
  = Some (prof, Z) ->
  forall i j : nat,
    0 <= Z i j
    /\ ((forall cid sigma cxs cys cx cy,
            (cid < length heights)%nat ->
            nth_error (patch_width P heights) cid = Some sigma ->
            nth_error (fst (patch_center P heights npatch iseed fanBeam)) cid
            = Some cxs ->
            nth_error (snd (patch_center P heights npatch iseed fanBeam)) cid
            = Some cys ->
            In (cx, cy) (combine cxs cys) ->
            3 * sigma < sqrt ((X i j - cx) ^ 2 + (Y i j - cy) ^ 2)) ->
        Z i j = 0).
Proof.
  intros Hpos Hrun i j. unfold generateBeam in Hrun. cbv zeta in Hrun.
  apply bind_some in Hrun as [Z0 [Hloop Hrun]].
  apply bind_some in Hrun as [prof0 [_ Hrun]].
  injection Hrun as _ <-.
  split.
  - revert Hloop.
    apply (for_each_invariant (fun Zs : array2 => 0 <= Zs i j));
      [| unfold zeros_like; lra].
    intros Zs cid Zs' _ HZs.
    apply (component_update_inv (fun Za : array2 => 0 <= Za i j));
      [| exact HZs].
    intros sigma cxs cys pc Za Zb _ _ _ _ HZa Hup.
    exact (patch_update_nonneg _ _ _ _ _ _ _ _ _ _ _ Hup HZa).
  - intro Hout. revert Hloop.
    apply (for_each_invariant (fun Zs : array2 => Zs i j = 0));
      [| reflexivity].
    intros Zs cid Zs' Hcid HZs.
    apply in_seq in Hcid.
    apply (component_update_inv (fun Za : array2 => Za i j = 0));
      [| exact HZs].
    intros sigma cxs cys [cx cy] Za Zb Hs Hcx Hcy Hin HZa Hup.
    rewrite <- HZa.
    apply (patch_update_outside _ _ _ _ _ _ _ _ _ _ _ Hup).
    + rewrite Forall_forall in Hpos. apply Hpos.
      exact (nth_error_In _ _ Hs).
    + apply (Hout cid sigma cxs cys cx cy); [lia | assumption ..].
Qed.

Lemma beam_nonnegative_and_zero_outside_patches_witness :
  exists prof Z,
    generateBeam (H := Sample.aberrated_patch_model) 1 45 5 1 1 [1] 10 None
                 (Some "1"%string) 4 None
    = Some (prof, Z)
    /\ 0 <= Z 0%nat 0%nat
    /\ Z 0%nat 0%nat = 0.
Proof.
  eexists. eexists. split; [exact aberrated_patch_beam |].
  pose proof (beam_nonnegative_and_zero_outside_patches
                (H := Sample.aberrated_patch_model)
                1 45 5 1 1 [1] 10 None (Some "1"%string) 4 None _ _
                aberrated_patch_width_positive aberrated_patch_beam
                0%nat 0%nat) as [Hnonneg Hzero].
  split; [exact Hnonneg |]. apply Hzero.
  intros cid sigma cxs cys cx cy Hcid Hs Hcx Hcy Hin.
  cbn [length] in Hcid. assert (cid = 0%nat) as -> by lia.
  cbn [patch_width patch_center Sample.aberrated_patch_model Sample.sample_bm
       fst snd nth_error] in Hs, Hcx, Hcy.
  injection Hs as <-. injection Hcx as <-. injection Hcy as <-.
  cbn [combine] in Hin. destruct Hin as [Hpc | []].
  injection Hpc as <- <-.
  rewrite X_first, Y_first, Rmult_1_r. apply sqrt_above_3. lra.
Defined.

(** *** When [generateBeam] returns and when it raises *)

Lemma nth_error_inside {A : Type} (l : list A) (n : nat) :
  (n < length l)%nat -> exists a, nth_error l n = Some a.
Proof.
  intro H. destruct (nth_error l n) as [a |] eqn:E; [now exists a |].
  apply nth_error_None in E. lia.
Qed.

Lemma nth_error_outside {A : Type} (l : list A) (n : nat) :
  (length l <= n)%nat -> nth_error l n = None.
Proof. apply nth_error_None. Qed.

(** X10.  [generateBeam] returns a field and a profile with one sample per
    line-of-sight point whenever the widths and the two lists of patch
    centres have an entry for each height, the aberration offsets too when
    [do_ab] is set, and the line of sight has as many x as y coordinates
    and stays one grid step clear of the upper edge,
    [-180 <= x <= 180 - dx] and [-180 <= y <= 180 - dy]. *)
Theorem generateBeam_returns `{BeamModel} (P alpha beta freq dm : R)
  (heights : list R) (npatch : int) (snr : option R) (do_ab : option string)
  (iseed : int) (fanBeam : option string) :
  (length heights <= length (patch_width P heights))%nat ->
  (length heights
   <= length (fst (patch_center P heights npatch iseed fanBeam)))%nat ->
  (length heights
   <= length (snd (patch_center P heights npatch iseed fanBeam)))%nat ->
  (do_ab = None
   \/ (length heights <= length (fst (aberration heights P alpha))
       /\ length heights <= length (snd (aberration heights P alpha)))%nat) ->
  length (fst (fst (los alpha beta res)))
  = length (snd (fst (los alpha beta res))) ->
  Forall (fun v => -180 <= v <= 180 - dx) (fst (fst (los alpha beta res))) ->
  Forall (fun v => -180 <= v <= 180 - dy) (snd (fst (los alpha beta res))) ->
  exists prof Z,
    generateBeam P alpha beta freq dm heights npatch snr do_ab iseed fanBeam
    = Some (prof, Z)
    /\ length prof = length (fst (fst (los alpha beta res))).
Proof.
  intros Hw Hcx Hcy Hab Hlen Hx Hy. unfold generateBeam. cbv zeta.
  destruct (for_each_returns
              (component_update do_ab (patch_width P heights)
                 (fst (patch_center P heights npatch iseed fanBeam))
                 (snd (patch_center P heights npatch iseed fanBeam))
                 (fst (aberration heights P alpha))
                 (snd (aberration heights P alpha)))
              (seq 0 (length heights))) with (s := zeros_like X) as [Z0 HZ0].
  { intros Zs cid Hin. apply in_seq in Hin. unfold component_update.
    destruct (nth_error_inside (patch_width P heights) cid) as [sg ->]; [lia |].
    destruct (nth_error_inside
                (fst (patch_center P heights npatch iseed fanBeam)) cid)
      as [cxs ->]; [lia |].
    destruct (nth_error_inside
                (snd (patch_center P heights npatch iseed fanBeam)) cid)
      as [cys ->]; [lia |].
    cbn [bind]. apply for_each_returns. intros Za pc _.
    unfold patch_update. cbv zeta.
    destruct Hab as [-> | [Hax Hay]]; [eexists; reflexivity |].
    destruct do_ab as [flag |]; [| eexists; reflexivity].
    destruct (nth_error_inside (fst (aberration heights P alpha)) cid)
      as [abx ->]; [lia |].
    destruct (nth_error_inside (snd (aberration heights P alpha)) cid)
      as [aby ->]; [lia |].
    cbn [bind]. eexists. reflexivity. }
  rewrite HZ0. cbn [bind].
  unfold gather, broadcast. rewrite !length_map, Hlen, Nat.eqb_refl.
  cbn [bind].
  destruct (gather_pairs_inside Z0
              (combine (map x_index (fst (fst (los alpha beta res))))
                       (map y_index (snd (fst (los alpha beta res))))))
    as [prof [Hprof Hl]].
  { apply Forall_forall. intros [ix iy] Hin. cbn [fst snd]. split.
    - apply in_combine_l, in_map_iff in Hin. destruct Hin as [v [<- Hv]].
      rewrite Forall_forall in Hx. apply x_index_inside, Hx, Hv.
    - apply in_combine_r, in_map_iff in Hin. destruct Hin as [v [<- Hv]].
      rewrite Forall_forall in Hy. apply y_index_inside, Hy, Hv. }
  rewrite Hprof. cbn [bind]. exists prof, Z0. split; [reflexivity |].
  rewrite Hl, length_combine, !length_map, Hlen. apply Nat.min_id.
Qed.

Lemma generateBeam_returns_witness :
  exists prof Z,
    generateBeam (H := Sample.one_patch_model) 1 45 5 1 1 [1] 10 None
                 (Some "1"%string) 4 None
    = Some (prof, Z)
    /\ length prof = 1%nat.
Proof.
  apply (generateBeam_returns (H := Sample.one_patch_model)
           1 45 5 1 1 [1] 10 None (Some "1"%string) 4 None).
  - cbn. lia.
  - cbn. lia.
  - cbn. lia.
  - right. cbn. lia.
  - reflexivity.
  - cbn [los Sample.one_patch_model Sample.sample_bm fst snd].
    repeat (apply Forall_cons; [rewrite dx_value; lra |]). apply Forall_nil.
  - cbn [los Sample.one_patch_model Sample.sample_bm fst snd].
    repeat (apply Forall_cons; [rewrite dy_value; lra |]). apply Forall_nil.
Defined.

(** X11.  [generateBeam] raises, and returns neither field nor profile,
    when [bm.patch_width] or one of the two lists of [bm.patch_center] has
    fewer entries than there are heights: the loop indexes them by the
    position of the height. *)
Theorem generateBeam_raises_on_short_geometry `{BeamModel}
  (P alpha beta freq dm : R) (heights : list R) (npatch : int)
  (snr : option R) (do_ab : option string) (iseed : int)
  (fanBeam : option string) :
  (length (patch_width P heights) < length heights
   \/ length (fst (patch_center P heights npatch iseed fanBeam))
      < length heights
   \/ length (snd (patch_center P heights npatch iseed fanBeam))
      < length heights)%nat ->
  generateBeam P alpha beta freq dm heights npatch snr do_ab iseed fanBeam
  = None.
Proof.
  intro Hshort. unfold generateBeam. cbv zeta.
  set (body := component_update _ _ _ _ _ _).
  assert (exists cid, In cid (seq 0 (length heights))
                      /\ forall Zs, body Zs cid = None) as [cid [Hin Hnone]].
  { unfold body, component_update.
    destruct Hshort as [Hs | [Hs | Hs]].
    - exists (length (patch_width P heights)). split; [apply in_seq; lia |].
      intro Zs. now rewrite nth_error_outside.
    - exists (length (fst (patch_center P heights npatch iseed fanBeam))).
      split; [apply in_seq; lia |].
      intro Zs. destruct (nth_error (patch_width P heights) _); [| reflexivity].
      cbn [bind]. now rewrite nth_error_outside.
    - exists (length (snd (patch_center P heights npatch iseed fanBeam))).
      split; [apply in_seq; lia |].
      intro Zs. destruct (nth_error (patch_width P heights) _); [| reflexivity].
      cbn [bind].
      destruct (nth_error (fst (patch_center P heights npatch iseed fanBeam)) _);
        [| reflexivity].
      cbn [bind]. now rewrite nth_error_outside. }
  now rewrite (for_each_raises body _ cid Hin Hnone).
Qed.

Lemma generateBeam_raises_on_short_geometry_witness :
  generateBeam (H := Sample.one_patch_model) 1 45 5 1 1 [1; 2] 10 None None 4
               None
  = None.
Proof.
  apply (generateBeam_raises_on_short_geometry (H := Sample.one_patch_model)).
  left. cbn. lia.
Defined.

(** *** Which cell a line-of-sight point reads *)





(** X13.  A coordinate below the grid does not raise.  For
    [-540 <= v <= -180.36] the computed index is negative and numpy counts
    it from the far end of the axis: row [1000 + index] is read,
    silently. *)
Theorem index_below_grid_wraps (v : R) :
  -540 <= v <= -18036 / 100 ->
  (-1000 <= x_index v <= -1)%Z
  /\ axis_index res (x_index v) = Some (Z.to_nat (x_index v + 1000)).
Proof.
  intro Hv.
  assert (-1000 <= x_index v <= -1)%Z as Hk.
  { unfold x_index, astype_int. rewrite dx_value. unfold xmin.
    destruct (Rle_dec 0 ((v - -180) / (36 / 100))) as [Hc | _]; [lra |].
    destruct (base_Int_part (- ((v - -180) / (36 / 100)))) as [Hle Hgt].
    split.
    - assert (IZR (Int_part (- ((v - -180) / (36 / 100)))) <= IZR 1000) as Hb
        by lra.
      apply le_IZR in Hb. lia.
    - assert (IZR 0 < IZR (Int_part (- ((v - -180) / (36 / 100))))) as Hb
        by lra.
      apply lt_IZR in Hb. lia. }
  split; [exact Hk |].
  unfold axis_index. change (Z.of_nat res) with 1000%Z.
  destruct (Z.leb_spec 0 (x_index v)); [lia |]. cbn [andb].
  destruct (Z.leb_spec (Z.opp 1000) (x_index v)); [| lia].
  destruct (Z.ltb_spec (x_index v) 0); [| lia].
  reflexivity.
Qed.

Lemma index_below_grid_wraps_witness :
  (-1000 <= x_index (-200) <= -1)%Z
  /\ axis_index res (x_index (-200))
     = Some (Z.to_nat (x_index (-200) + 1000)).
Proof.
  apply (index_below_grid_wraps (-200)). lra.
Defined.

End BeamMore.

(** ** More on the script body *)

Module MainMore.

Import Beam Main Derived NumpyFacts BeamProps MainProps BeamMore.

(** *** Loops that append *)

Lemma for_each_collect {A E : Type} (entry : A -> option E) (l : list A) :
  forall acc : list E,
    for_each (fun acc a => e <- entry a ;; Some (acc ++ [e])) l acc
    = (es <- collect entry l ;; Some (acc ++ es)).
Proof.
  induction l as [| a l IH]; intro acc.
  - cbn. now rewrite app_nil_r.
  - cbn [for_each collect]. destruct (entry a) as [e |]; [| reflexivity].
    cbn [bind]. rewrite IH.
    destruct (collect entry l) as [es |]; [| reflexivity].
    cbn [bind]. now rewrite <- app_assoc.
Qed.

Lemma collect_map {A E : Type} (entry : A -> option E) (f : A -> E)
  (l : list A) :
  (forall a, In a l -> entry a = Some (f a)) ->
  collect entry l = Some (map f l).
Proof.
  induction l as [| a l IH]; intro H; [reflexivity |].
  cbn [collect map]. rewrite (H a (or_introl eq_refl)). cbn [bind].
  rewrite IH by (intros b Hb; apply H; now right). reflexivity.
Qed.

Lemma collect_raises {A E : Type} (entry : A -> option E) (l : list A) (a : A) :
  In a l -> entry a = None -> collect entry l = None.
Proof.
  intros Hin Hnone. induction l as [| b l IH]; [contradiction |].
  cbn [collect]. destruct Hin as [-> | Hin].
  - now rewrite Hnone.
  - destruct (entry b); [| reflexivity]. cbn [bind].
    now rewrite (IH Hin).
Qed.

Lemma map_nth_seq {A E : Type} (f : A -> E) (d : A) (l : list A) :
  map (fun i => f (nth i l d)) (seq 0 (length l)) = map f l.
Proof.
  induction l as [| a l IH]; [reflexivity |].
  cbn [length seq map nth]. f_equal.
  rewrite <- seq_shift, map_map. exact IH.
Qed.

Lemma for_each_ext_in {A S : Type} (body body' : S -> A -> option S)
  (l : list A) :
  (forall s a, In a l -> body s a = body' s a) ->
  forall s, for_each body l s = for_each body' l s.
Proof.
  induction l as [| a l IH]; intros Hext s; [reflexivity |].
  cbn [for_each]. rewrite (Hext s a (or_introl eq_refl)).
  destruct (body' s a); [| reflexivity]. cbn [bind].
  apply IH. intros s1 b Hb. apply Hext. now right.
Qed.

Lemma for_each_counts {A St : Type} (c : St -> nat)
  (body : St -> A -> option St) (l : list A) :
  (forall s a s', body s a = Some s' -> c s' = S (c s)) ->
  forall s s', for_each body l s = Some s' -> c s' = (c s + length l)%nat.
Proof.
  intro Hbody. induction l as [| a l IH]; intros s s' Hrun.
  - injection Hrun as <-. cbn [length]. lia.
  - cbn [for_each] in Hrun. apply bind_some in Hrun as [s1 [H1 Hrest]].
    rewrite (IH _ _ Hrest), (Hbody _ _ _ H1). cbn [length]. lia.
Qed.

(** *** The per-frequency loop *)

(** X14.  When the extraction stage completes, the channel count is not
    negative and the lists of widths, of profiles and of beam fields hold
    exactly one entry per frequency channel, [nch] each. *)
Theorem one_entry_per_channel `{BeamModel} (args : Args) (ch : Channels) :
  extracted_channels args = Some ch ->
  (0 <= arg_nch args)%Z
  /\ length (w10 ch) = Z.to_nat (arg_nch args)
  /\ length (prof ch) = Z.to_nat (arg_nch args)
  /\ length (beam ch) = Z.to_nat (arg_nch args).
Proof.
  intro Hrun. unfold extracted_channels in Hrun. cbv zeta in Hrun.
  apply bind_some in Hrun as [freq [Hfreq Hrun]].
  unfold linspace_int in Hfreq.
  destruct (Z.ltb_spec (arg_nch args) 0) as [| Hnch]; [discriminate |].
  injection Hfreq as <-.
  unfold profiles_per_frequency in Hrun.
  assert (forall (c : Channels -> nat),
             (forall st f st',
                 frequency_step (arg_p args) (arg_alpha args) (arg_beta args)
                   (arg_dm args) (arg_npatch args) (arg_snr args)
                   (arg_do_ab args) (arg_iseed args) (arg_doFan args)
                   (emission_height (arg_p args) (arg_nc args) (arg_iseed args)
                      (arg_hmin args) (arg_hmax args)) st f = Some st' ->
                 c st' = S (c st)) ->
             c {| w10 := []; prof := []; beam := [] |} = 0%nat ->
             c ch = Z.to_nat (arg_nch args)) as Hcount.
  { intros c Hstep H0.
    rewrite (for_each_counts c _ _ Hstep _ _ Hrun), H0.
    unfold linspace. now rewrite length_map, length_seq. }
  split; [exact Hnch |].
  split; [| split].
  - apply (Hcount (fun st => length (w10 st))); [| reflexivity].
    intros st f st' Hstep. unfold frequency_step in Hstep. cbv zeta in Hstep.
    apply bind_some in Hstep as [r [_ Hstep]]. injection Hstep as <-.
    cbn [w10]. rewrite length_app. cbn [length]. lia.
  - apply (Hcount (fun st => length (prof st))); [| reflexivity].
    intros st f st' Hstep. unfold frequency_step in Hstep. cbv zeta in Hstep.
    apply bind_some in Hstep as [r [_ Hstep]]. injection Hstep as <-.
    cbn [prof]. rewrite length_app. cbn [length]. lia.
  - apply (Hcount (fun st => length (beam st))); [| reflexivity].
    intros st f st' Hstep. unfold frequency_step in Hstep. cbv zeta in Hstep.
    apply bind_some in Hstep as [r [_ Hstep]]. injection Hstep as <-.
    cbn [beam]. rewrite length_app. cbn [length]. lia.
Qed.

Lemma one_entry_per_channel_witness :
  exists ch,
    extracted_channels (H := Sample.one_patch_model) Sample.one_channel_args
    = Some ch
    /\ length (prof ch) = 1%nat.
Proof.
  destruct (main_record (H := Sample.one_patch_model) Sample.one_channel_args
              _ one_channel_run) as [ch [Hch _]].
  exists ch. split; [exact Hch |].
  exact (proj1 (proj2 (proj2 (one_entry_per_channel
                                (H := Sample.one_patch_model)
                                Sample.one_channel_args ch Hch)))).
Defined.

(** *** Runs that write no record *)

Ltac skip_binds :=
  repeat match goal with
         | |- bind ?m _ = None =>
           destruct m; cbn [bind]; [| reflexivity]
         end.

(** X15.  A run with no frequency channel, [nch <= 0], writes no record:
    a negative count is refused when the frequencies are laid out, and
    with [nch = 0] the list of profiles is empty, so the noise stage or
    the lookup of the reference profile [profile[nch - 1]] raises. *)
Theorem main_needs_a_channel `{BeamModel} (args : Args) :
  (arg_nch args <= 0)%Z -> main args = None.
Proof.
  intro Hnch. unfold main. cbv zeta. unfold linspace_int.
  destruct (Z.ltb_spec (arg_nch args) 0) as [| Hge]; [reflexivity |].
  assert (arg_nch args = 0%Z) as -> by lia.
  change (Z.to_nat 0) with 0%nat. cbn [bind linspace seq map].
  unfold profiles_per_frequency. cbn [for_each bind prof].
  assert (scattering_stage (arg_scatter args) (arg_p args) (arg_dm args)
            (arg_iseed args) [] [] = Some ([], [])) as ->
    by (unfold scattering_stage; now destruct (arg_scatter args)).
  cbn [bind snd]. unfold noise_stage. cbn [length seq for_each bind].
  destruct (arg_snr args); reflexivity.
Qed.

Lemma main_needs_a_channel_witness :
  main (H := Sample.one_patch_model)
       {| arg_p := 1; arg_nc := 1; arg_npatch := 1; arg_iseed := 4;
          arg_hmin := None; arg_hmax := None; arg_alpha := 45; arg_beta := 5;
          arg_snr := None; arg_dm := 1; arg_do_ab := None; arg_nch := 0;
          arg_min_freq := 1; arg_chbw := 1; arg_scatter := None;
          arg_doFan := None; arg_outfile := Some "out"%string |}
  = None.
Proof.
  apply (main_needs_a_channel (H := Sample.one_patch_model)).
  cbn [arg_nch]. lia.
Defined.

(** X16.  A run started without [-outfile] writes no record, whatever the
    other arguments: every stage is computed first and [open(None, 'a')]
    raises at the end. *)
Theorem main_needs_an_output_file `{BeamModel} (args : Args) :
  arg_outfile args = None -> main args = None.
Proof.
  intro Hfile. unfold main. cbv zeta. rewrite Hfile. skip_binds.
  reflexivity.
Qed.

Lemma main_needs_an_output_file_witness :
  main (H := Sample.one_patch_model)
       {| arg_p := 1; arg_nc := 1; arg_npatch := 1; arg_iseed := 4;
          arg_hmin := None; arg_hmax := None; arg_alpha := 45; arg_beta := 5;
          arg_snr := None; arg_dm := 1; arg_do_ab := None; arg_nch := 1;
          arg_min_freq := 1; arg_chbw := 1; arg_scatter := None;
          arg_doFan := None; arg_outfile := None |}
  = None.
Proof.
  apply (main_needs_an_output_file (H := Sample.one_patch_model)).
  reflexivity.
Defined.

(** *** The selected DM *)

(** X17.  Whatever the loop of lines 219-221 leaves in [best_dm] is an
    entry of [dm_range], taken at an index where the averaged peak equals
    the maximum of the peaks. *)
Theorem best_dm_is_a_trial_value_at_the_maximum (peaks dm_range : list R)
  (d : R) :
  select_best_dm peaks dm_range = Some (Some d) ->
  exists i, nth_error dm_range i = Some d /\ attains_max peaks i.
Proof.
  unfold select_best_dm. intro Hrun.
  refine (for_each_invariant
            (fun best : option R =>
               forall d0, best = Some d0 ->
                          exists i, nth_error dm_range i = Some d0
                                    /\ attains_max peaks i)
            (select_step peaks dm_range) (seq 0 (length peaks))
            _ None (Some d) _ Hrun d eq_refl); [| discriminate].
  intros best i best' _ Hbest Hstep d0 ->.
  unfold select_step in Hstep.
  apply bind_some in Hstep as [pk [Hpk Hstep]].
  apply bind_some in Hstep as [m [Hm Hstep]].
  destruct (Req_dec_T pk m) as [-> | _].
  - apply bind_some in Hstep as [d1 [Hd1 Hstep]]. injection Hstep as <-.
    exists i. split; [exact Hd1 |]. exists m. now split.
  - injection Hstep as ->. now apply Hbest.
Qed.

Lemma select_among_three :
  select_best_dm [1; 3; 2] [10; 20; 30] = Some (Some 20).
Proof.
  assert (np_max [1; 3; 2] = Some 3) as Hmax.
  { cbn [np_max fold_left]. rewrite (Rmax_right 1 3) by lra.
    now rewrite (Rmax_left 3 2) by lra. }
  unfold select_best_dm. cbn [length seq for_each].
  unfold select_step. rewrite Hmax. cbn [nth_error bind].
  destruct (Req_dec_T 1 3) as [Hc | _]; [lra |].
  cbn [bind].
  destruct (Req_dec_T 3 3) as [_ | Hn]; [| now elim Hn].
  cbn [bind].
  destruct (Req_dec_T 2 3) as [Hc | _]; [lra |].
  reflexivity.
Qed.

Lemma best_dm_is_a_trial_value_at_the_maximum_witness :
  exists i, nth_error [10; 20; 30] i = Some 20 /\ attains_max [1; 3; 2] i.
Proof.
  apply (best_dm_is_a_trial_value_at_the_maximum [1; 3; 2] [10; 20; 30] 20).
  exact select_among_three.
Defined.





(** *** The DM search loop *)

Lemma for_each_map {A B S : Type} (body : S -> B -> option S) (g : A -> B)
  (l : list A) :
  forall s, for_each body (map g l) s = for_each (fun s a => body s (g a)) l s.
Proof.
  induction l as [| a l IH]; intro s; [reflexivity |].
  cbn [map for_each]. destruct (body s (g a)); [apply IH | reflexivity].
Qed.

Lemma py_index_nat {A : Type} (l : list A) (k : nat) :
  py_index l (Z.of_nat k) = nth_error l k.
Proof.
  unfold py_index.
  destruct (Z.leb_spec 0 (Z.of_nat k)); [| lia].
  now rewrite Nat2Z.id.
Qed.

Lemma nth_error_default {A : Type} (l : list A) (k : nat) (d : A) :
  (k < length l)%nat -> nth_error l k = Some (nth k l d).
Proof.
  intro H. destruct (nth_error_inside l k H) as [a Ha].
  now rewrite Ha, (nth_error_nth _ _ d Ha).
Qed.

Lemma firstn_by_index {A : Type} (d : A) (l : list A) :
  forall m, (m <= length l)%nat ->
            map (fun k => nth k l d) (seq 0 m) = firstn m l.
Proof.
  induction l as [| a l IH]; intros m Hm.
  - cbn [length] in Hm. assert (m = 0%nat) as -> by lia. reflexivity.
  - destruct m as [| m]; [reflexivity |].
    cbn [seq map nth firstn]. f_equal.
    rewrite <- seq_shift, map_map. apply IH. cbn [length] in Hm. lia.
Qed.

(** The loop of lines 212-215 in closed form: the first [nch - 1] channel
    profiles in order, each rolled by its own delay. *)
Lemma shifted_profile_closed `{BeamModel} (nch : int) (t_res : R)
  (freq : list R) (profile : list (list R)) (dm_trial : R) :
  length freq = Z.to_nat nch ->
  length profile = Z.to_nat nch ->
  shifted_profile nch t_res freq profile dm_trial
  = Some (map (fun k =>
                 roll (nth k profile [])
                      (delay (nth (Z.to_nat (nch - 1)) freq 0)
                             (nth k freq 0) dm_trial t_res))
              (seq 0 (Z.to_nat (nch - 1)))).
Proof.
  intros Hf Hp. unfold shifted_profile, py_range. rewrite for_each_map.
  set (m := Z.to_nat (nch - 1)).
  set (entry := fun k : nat =>
                  f_ref <- py_index freq (nch - 1)%Z ;;
                  f <- py_index freq (Z.of_nat k) ;;
                  pr <- py_index profile (Z.of_nat k) ;;
                  Some (roll pr (delay f_ref f dm_trial t_res))).
  rewrite (for_each_ext _ (fun acc k => e <- entry k ;; Some (acc ++ [e]))).
  2:{ intros acc k. unfold entry.
      destruct (py_index freq (nch - 1)%Z); [| reflexivity]. cbn [bind].
      destruct (py_index freq (Z.of_nat k)); [| reflexivity]. cbn [bind].
      destruct (py_index profile (Z.of_nat k)); reflexivity. }
  rewrite for_each_collect.
  rewrite (collect_map entry
             (fun k => roll (nth k profile [])
                            (delay (nth m freq 0) (nth k freq 0) dm_trial
                                   t_res))).
  - reflexivity.
  - intros k Hk. apply in_seq in Hk. unfold entry.
    assert (0 < nch - 1)%Z as Hpos by lia.
    replace (nch - 1)%Z with (Z.of_nat m) at 1 by (unfold m; lia).
    rewrite !py_index_nat.
    rewrite (nth_error_default freq m 0) by lia.
    rewrite (nth_error_default freq k 0) by lia.
    rewrite (nth_error_default profile k []) by lia.
    reflexivity.
Qed.

Lemma roll_by_zero {A : Type} (a : list A) : roll a 0 = a.
Proof.
  unfold roll. destruct (length a) as [| n] eqn:Hn; [reflexivity |].
  rewrite Z.mod_0_l by lia. change (Z.to_nat 0) with 0%nat.
  rewrite Nat.sub_0_r, <- Hn, skipn_all, firstn_all. reflexivity.
Qed.

Lemma roll_permutation {A : Type} (a : list A) (shift : int) :
  Permutation (roll a shift) a.
Proof.
  unfold roll. destruct (length a) as [| n]; [apply Permutation_refl |].
  set (k := (S n - Z.to_nat (shift mod Z.of_nat (S n)))%nat).
  rewrite <- (firstn_skipn k a) at 3. apply Permutation_app_comm.
Qed.

(** X19.  With one frequency and one profile per channel, a trial DM at
    which every delay is zero leaves the channels as they are: the pass of
    lines 212-215 returns the first [nch - 1] channel profiles,
    unshifted. *)
Theorem zero_delay_leaves_channels_unshifted `{BeamModel} (nch : int)
  (t_res : R) (freq : list R) (profile : list (list R)) (dm_trial : R) :
  length freq = Z.to_nat nch ->
  length profile = Z.to_nat nch ->
  (forall f_ref f, delay f_ref f dm_trial t_res = 0%Z) ->
  shifted_profile nch t_res freq profile dm_trial
  = Some (firstn (Z.to_nat (nch - 1)) profile).
Proof.
  intros Hf Hp Hzero.
  rewrite (shifted_profile_closed nch t_res freq profile dm_trial Hf Hp).
  f_equal. rewrite <- (firstn_by_index []) by lia.
  apply map_ext. intro k. now rewrite Hzero, roll_by_zero.
Qed.

Lemma zero_delay_leaves_channels_unshifted_witness :
  shifted_profile (H := Sample.one_patch_model) 3 1 [1; 2; 3]
                  [[1; 2]; [3; 4]; [5; 6]] 7
  = Some [[1; 2]; [3; 4]].
Proof.
  apply (zero_delay_leaves_channels_unshifted (H := Sample.one_patch_model)
           3 1 [1; 2; 3] [[1; 2]; [3; 4]; [5; 6]] 7).
  - reflexivity.
  - reflexivity.
  - intros f_ref f. reflexivity.
Defined.

Lemma Forall2_map_both {A B C : Type} (Q : B -> C -> Prop) (f : A -> B)
  (g : A -> C) (l : list A) :
  (forall a, Q (f a) (g a)) -> Forall2 Q (map f l) (map g l).
Proof.
  intro H. induction l as [| a l IH]; cbn [map]; constructor; auto.
Qed.

(** X20.  With one frequency and one profile per channel the pass of
    lines 212-215 completes, and each profile it returns holds the same
    samples as the channel it was rolled from, in another order: shifting
    neither drops nor invents a sample. *)
Theorem shifting_keeps_the_samples `{BeamModel} (nch : int) (t_res : R)
  (freq : list R) (profile : list (list R)) (dm_trial : R) :
  length freq = Z.to_nat nch ->
  length profile = Z.to_nat nch ->
  exists shifted,
    shifted_profile nch t_res freq profile dm_trial = Some shifted
    /\ Forall2 (fun s p => Permutation s p) shifted
               (firstn (Z.to_nat (nch - 1)) profile).
Proof.
  intros Hf Hp.
  eexists. split;
    [exact (shifted_profile_closed nch t_res freq profile dm_trial Hf Hp) |].
  rewrite <- (firstn_by_index []) by lia.
  apply Forall2_map_both. intro k. apply roll_permutation.
Qed.

Lemma shifting_keeps_the_samples_witness :
  exists shifted,
    shifted_profile
      (H := Sample.sample_bm ([], [], []) [] ([], []) ([], [])
                             (fun _ _ _ _ => 1%Z))
      2 1 [1; 2] [[1; 2; 3]; [4; 5; 6]] 7
    = Some shifted
    /\ Forall2 (fun s p => Permutation s p) shifted [[1; 2; 3]].
Proof.
  apply (shifting_keeps_the_samples
           (H := Sample.sample_bm ([], [], []) [] ([], []) ([], [])
                                  (fun _ _ _ _ => 1%Z))
           2 1 [1; 2] [[1; 2; 3]; [4; 5; 6]] 7); reflexivity.
Defined.

Lemma zero_delay_shift_example (d : R) :
  shifted_profile
    (H := Sample.sample_bm ([], [], []) [] ([], []) ([], [])
                           (fun _ _ _ _ => 0%Z))
    2 1 [1; 2] [[1; 1]; [0; 0]] d
  = Some [[1; 1]].
Proof.
  rewrite shifted_profile_closed by reflexivity.
  change (Z.to_nat (2 - 1)) with 1%nat. cbn [seq map nth delay Sample.sample_bm].
  now rewrite roll_by_zero.
Qed.

(** X21.  When the DM search loop completes it has recorded exactly one
    averaged profile and one peak per trial DM. *)
Theorem one_peak_per_trial_dm `{BeamModel} (nch : int) (t_res : R)
  (freq : list R) (profile : list (list R)) (dm_range : list R)
  (average_profile : list (list R)) (peaks_of_average : list R) :
  dm_search nch t_res freq profile dm_range
  = Some (average_profile, peaks_of_average) ->
  length average_profile = length dm_range
  /\ length peaks_of_average = length dm_range.
Proof.
  intro Hrun. unfold dm_search in Hrun.
  assert (forall c : list (list R) * list R -> nat,
             (forall st dm_id st',
                 (d <- nth_error dm_range dm_id ;;
                  shifted <- shifted_profile nch t_res freq profile d ;;
                  a <- nth_error (fst st ++ [avg_prof shifted]) dm_id ;;
                  Some (fst st ++ [avg_prof shifted], snd st ++ [find_peak a]))
                 = Some st' -> c st' = S (c st)) ->
             c (average_profile, peaks_of_average)
             = (c ([], []) + length dm_range)%nat) as Hcount.
  { intros c Hstep.
    rewrite (for_each_counts c _ _ Hstep _ _ Hrun). now rewrite length_seq. }
  split.
  - apply (Hcount (fun st => length (fst st))).
    intros st dm_id st' Hstep. bind_inv Hstep. injection Hstep as <-.
    cbn [fst]. rewrite length_app. cbn [length]. lia.
  - apply (Hcount (fun st => length (snd st))).
    intros st dm_id st' Hstep. bind_inv Hstep. injection Hstep as <-.
    cbn [snd]. rewrite length_app. cbn [length]. lia.
Qed.

Lemma one_peak_per_trial_dm_witness :
  exists average_profile peaks_of_average,
    dm_search
      (H := Sample.sample_bm ([], [], []) [] ([], []) ([], [])
                             (fun _ _ _ _ => 0%Z))
      2 1 [1; 2] [[1; 1]; [0; 0]] [7]
    = Some (average_profile, peaks_of_average)
    /\ length peaks_of_average = 1%nat.
Proof.
  assert (dm_search
            (H := Sample.sample_bm ([], [], []) [] ([], []) ([], [])
                                   (fun _ _ _ _ => 0%Z))
            2 1 [1; 2] [[1; 1]; [0; 0]] [7]
          = Some ([[1; 1]], [1])) as Hrun.
  { unfold dm_search. cbn [length seq for_each nth_error bind].
    rewrite (zero_delay_shift_example 7).
    cbn [bind fst snd app nth_error avg_prof find_peak Sample.sample_bm].
    now rewrite mean_of_one_flat_profile, peak_of_flat_profile. }
  eexists. eexists. split; [exact Hrun |].
  exact (proj2 (one_peak_per_trial_dm _ _ _ _ _ _ _ Hrun)).
Defined.

(** X22.  The DM search never reads the profile of the reference channel:
    two lists of channel profiles that agree on their first [nch - 1]
    entries give the same averaged profiles and the same peaks, for every
    list of trial DMs. *)
Theorem dm_search_ignores_reference_profile `{BeamModel} (nch : int)
  (t_res : R) (freq : list R) (profile profile' : list (list R))
  (dm_range : list R) :
  firstn (Z.to_nat (nch - 1)) profile = firstn (Z.to_nat (nch - 1)) profile' ->
  dm_search nch t_res freq profile dm_range
  = dm_search nch t_res freq profile' dm_range.
Proof.
  intro Hsame.
  assert (forall d, shifted_profile nch t_res freq profile d
                    = shifted_profile nch t_res freq profile' d) as Hshift.
  { intro d. unfold shifted_profile. apply for_each_ext_in.
    intros acc freq_id Hin. unfold py_range in Hin.
    apply in_map_iff in Hin as [k [<- Hk]]. apply in_seq in Hk.
    rewrite !py_index_nat.
    assert (nth_error profile k = nth_error profile' k) as ->; [| reflexivity].
    pose proof (nth_error_firstn (Z.to_nat (nch - 1)) profile k) as H1.
    pose proof (nth_error_firstn (Z.to_nat (nch - 1)) profile' k) as H2.
    destruct (Nat.ltb_spec k (Z.to_nat (nch - 1))); [| lia].
    rewrite <- H1, <- H2, Hsame. reflexivity. }
  unfold dm_search. apply for_each_ext. intros st dm_id.
  destruct (nth_error dm_range dm_id); [| reflexivity]. cbn [bind].
  now rewrite Hshift.
Qed.

Lemma dm_search_ignores_reference_profile_witness :
  dm_search (H := Sample.one_patch_model) 2 1 [1; 2] [[1; 2]; [3; 4]] [0; 1]
  = dm_search (H := Sample.one_patch_model) 2 1 [1; 2] [[1; 2]; [9; 9]] [0; 1].
Proof.
  apply (dm_search_ignores_reference_profile (H := Sample.one_patch_model)).
  reflexivity.
Defined.

(** *** The scattering and noise stages *)

Lemma map_by_index_pairs {A B C : Type} (g : A -> B -> C) (d1 : A) (d2 : B)
  (l1 : list A) :
  forall l2 : list B,
    length l1 = length l2 ->
    map (fun i => g (nth i l1 d1) (nth i l2 d2)) (seq 0 (length l1))
    = map (fun ab => g (fst ab) (snd ab)) (combine l1 l2).
Proof.
  induction l1 as [| a l1 IH]; intros l2 Hlen; [reflexivity |].
  destruct l2 as [| b l2]; [discriminate |].
  cbn [length seq map nth combine fst snd]. f_equal.
  rewrite <- seq_shift, map_map. apply IH. cbn [length] in Hlen. lia.
Qed.

(** X23.  With the scattering flag set and one profile per frequency, the
    stage completes and treats every channel on its own: the channel's
    profile is repeated by [pulsetrain(3, ...)], convolved by [scatter]
    with the broadening kernel of the channel's own scattering time, and
    cut back by [extractpulse(..., 2, ...)]; the results come in channel
    order. *)
Theorem scattering_set_processes_each_channel `{BeamModel}
  (flag : string) (P dm : R) (iseed : int) (freq : list R)
  (prof : list (list R)) :
  length freq = length prof ->
  scattering_stage (Some flag) P dm iseed freq prof
  = Some (map (pulsetrain 3 res) prof,
          map (fun fp =>
                 extractpulse
                   (scatter (pulsetrain 3 res (snd fp))
                            (broadening (sc_time (fst fp) dm iseed) P res))
                   2 res)
              (combine freq prof)).
Proof.
  intro Hlen. unfold scattering_stage. cbv zeta.
  rewrite (for_each_ext _
             (fun acc pid =>
                e <- (pr <- nth_error prof pid ;; Some (pulsetrain 3 res pr)) ;;
                Some (acc ++ [e])))
    by (intros acc pid; now destruct (nth_error prof pid)).
  rewrite for_each_collect.
  rewrite (collect_map _ (fun pid => pulsetrain 3 res (nth pid prof [])))
    by (intros pid Hin; apply in_seq in Hin;
        now rewrite (nth_error_default prof pid []) by lia).
  cbn [bind app]. rewrite map_nth_seq.
  unfold scatter_step.
  rewrite (for_each_ext _
             (fun acc fid =>
                e <- (f <- nth_error freq fid ;;
                      t <- nth_error (map (pulsetrain 3 res) prof) fid ;;
                      Some (extractpulse
                              (scatter t (broadening (sc_time f dm iseed) P res))
                              2 res)) ;;
                Some (acc ++ [e]))).
  2:{ intros acc fid. destruct (nth_error freq fid); [| reflexivity].
      cbn [bind].
      now destruct (nth_error (map (pulsetrain 3 res) prof) fid). }
  rewrite for_each_collect.
  rewrite (collect_map _
             (fun fid =>
                extractpulse
                  (scatter (pulsetrain 3 res (nth fid prof []))
                           (broadening (sc_time (nth fid freq 0) dm iseed)
                                       P res))
                  2 res)).
  - cbn [bind app]. do 2 f_equal.
    exact (map_by_index_pairs
             (fun f p =>
                extractpulse
                  (scatter (pulsetrain 3 res p)
                           (broadening (sc_time f dm iseed) P res)) 2 res)
             0 [] freq prof Hlen).
  - intros fid Hin. apply in_seq in Hin.
    rewrite (nth_error_default freq fid 0) by lia. cbn [bind].
    rewrite nth_error_map, (nth_error_default prof fid []) by lia.
    reflexivity.
Qed.

Lemma scattering_set_processes_each_channel_witness :
  scattering_stage (H := Sample.one_patch_model) (Some "1"%string) 1 1 4
                   [1; 2] [[1; 2]; [3; 4]]
  = Some ([[1; 2; 1; 2; 1; 2]; [3; 4; 3; 4; 3; 4]], [[1; 2]; [3; 4]]).
Proof.
  apply (scattering_set_processes_each_channel (H := Sample.one_patch_model)
           "1"%string 1 1 4 [1; 2] [[1; 2]; [3; 4]]).
  reflexivity.
Defined.

(** X24.  With the scattering flag and the SNR both unset the two optional
    stages compose to the identity: the profiles handed to the DM fit are
    the extracted profiles themselves, whatever they are. *)
Theorem optional_stages_off_pass_profiles_through `{BeamModel} (P dm : R)
  (iseed : int) (freq : list R) (prof : list (list R)) :
  (sc <- scattering_stage None P dm iseed freq prof ;;
   noise_stage None iseed prof (snd sc))
  = Some prof.
Proof.
  cbn [scattering_stage bind snd]. unfold noise_stage.
  destruct (for_each_returns
              (fun peaks j => s <- nth_error prof j ;; Some (peaks ++ [find_peak s]))
              (seq 0 (length prof))) with (s := @nil R) as [peaks Hpeaks].
  { intros acc j Hin. apply in_seq in Hin.
    rewrite (nth_error_default prof j []) by lia. cbn [bind]. now eexists. }
  now rewrite Hpeaks.
Qed.

End MainMore.

(** ** The zoomed extent of the beam plot *)

Module PlotMore.

Import Beam Plot BeamProps BeamMore.

Lemma combine_fst_snd {A B : Type} (l : list (A * B)) :
  combine (map fst l) (map snd l) = l.
Proof.
  induction l as [| [a b] l IH]; [reflexivity |].
  cbn [map combine fst snd]. now rewrite IH.
Qed.

Lemma fold_min_of_pairs (cells : list (nat * nat)) :
  forall a b,
    fold_left Nat.min (map (fun p => Nat.min (fst p) (snd p)) cells)
              (Nat.min a b)
    = Nat.min (fold_left Nat.min (map fst cells) a)
              (fold_left Nat.min (map snd cells) b).
Proof.
  induction cells as [| [r c] cells IH]; intros a b; [reflexivity |].
  cbn [map fold_left fst snd].
  replace (Nat.min (Nat.min a b) (Nat.min r c))
    with (Nat.min (Nat.min a r) (Nat.min b c)) by lia.
  apply IH.
Qed.

Lemma fold_max_of_pairs (cells : list (nat * nat)) :
  forall a b,
    fold_left Nat.max (map (fun p => Nat.max (fst p) (snd p)) cells)
              (Nat.max a b)
    = Nat.max (fold_left Nat.max (map fst cells) a)
              (fold_left Nat.max (map snd cells) b).
Proof.
  induction cells as [| [r c] cells IH]; intros a b; [reflexivity |].
  cbn [map fold_left fst snd].
  replace (Nat.max (Nat.max a b) (Nat.max r c))
    with (Nat.max (Nat.max a r) (Nat.max b c)) by lia.
  apply IH.
Qed.

(** Reducing the two index arrays against each other and then to one
    number, or each on its own and then against each other, gives the
    same number. *)
Lemma both_minima_agree (cells : list (nat * nat)) (nzx nzy : nat)
  (a1 : list nat) :
  index_min (amin_axis0 (map fst cells, map snd cells)) = Some nzx ->
  amin_axis1 (map fst cells, map snd cells) = Some a1 ->
  index_min a1 = Some nzy ->
  nzx = nzy.
Proof.
  unfold amin_axis0, amin_axis1. cbn [fst snd]. rewrite combine_fst_snd.
  destruct cells as [| [r c] cells]; [discriminate |].
  cbn [map index_min fst snd bind]. intros Hx Ha Hy.
  injection Hx as <-. injection Ha as <-. cbn [index_min fold_left] in Hy.
  injection Hy as <-. apply fold_min_of_pairs.
Qed.

Lemma both_maxima_agree (cells : list (nat * nat)) (nzx nzy : nat)
  (b1 : list nat) :
  index_max (amax_axis0 (map fst cells, map snd cells)) = Some nzx ->
  amax_axis1 (map fst cells, map snd cells) = Some b1 ->
  index_max b1 = Some nzy ->
  nzx = nzy.
Proof.
  unfold amax_axis0, amax_axis1. cbn [fst snd]. rewrite combine_fst_snd.
  destruct cells as [| [r c] cells]; [discriminate |].
  cbn [map index_max fst snd bind]. intros Hx Ha Hy.
  injection Hx as <-. injection Ha as <-. cbn [index_max fold_left] in Hy.
  injection Hy as <-. apply fold_max_of_pairs.
Qed.

Lemma zoom_window_square (cells : list (nat * nat)) (phase : list R)
  (x1 x2 y1 y2 : R) :
  zoom_window (map fst cells, map snd cells) phase = Some (x1, x2, y1, y2) ->
  x1 = y1 /\ x2 = y2.
Proof.
  intro H. unfold zoom_window in H.
  apply bind_some in H as [nzx_min [Hxmin H]].
  apply bind_some in H as [a1 [Ha1 H]].
  apply bind_some in H as [nzy_min [Hymin H]].
  apply bind_some in H as [nzx_max [Hxmax H]].
  apply bind_some in H as [b1 [Hb1 H]].
  apply bind_some in H as [nzy_max [Hymax H]].
  apply bind_some in H as [v1 [Hv1 H]].
  apply bind_some in H as [v2 [Hv2 H]].
  apply bind_some in H as [w1 [Hw1 H]].
  apply bind_some in H as [w2 [Hw2 H]].
  injection H as <- <- <- <-.
  pose proof (both_minima_agree _ _ _ _ Hxmin Ha1 Hymin) as Emin.
  pose proof (both_maxima_agree _ _ _ _ Hxmax Hb1 Hymax) as Emax.
  subst nzy_min nzy_max. split; congruence.
Qed.

(** X25.  Whenever the zoom window of lines 256-264 is computed, its x and
    y extents are the same interval: [x1 = y1] and [x2 = y2].  Both lower
    indices are the smallest row-or-column index of a non-zero cell and
    both upper indices the largest, so the window is a square on the
    diagonal. *)
Theorem zoom_window_is_square (beam : list array2) (phase : list R)
  (x1 x2 y1 y2 : R) :
  zoom_extent beam phase = Some (x1, x2, y1, y2) ->
  x1 = y1 /\ x2 = y2.
Proof.
  intro H. unfold zoom_extent in H.
  apply bind_some in H as [b0 [_ H]].
  exact (zoom_window_square (nonzero_cells b0) phase x1 x2 y1 y2 H).
Qed.

Lemma flat_map_nil {A B : Type} (f : A -> list B) (l : list A) :
  (forall a, In a l -> f a = []) -> flat_map f l = [].
Proof.
  induction l as [| a l IH]; intro H; [reflexivity |].
  cbn [flat_map]. rewrite (H a (or_introl eq_refl)), IH; [reflexivity |].
  intros b Hb. apply H. now right.
Qed.

Lemma filter_nil {A : Type} (p : A -> bool) (l : list A) :
  (forall a, In a l -> p a = false) -> filter p l = [].
Proof.
  induction l as [| a l IH]; intro H; [reflexivity |].
  cbn [filter]. rewrite (H a (or_introl eq_refl)). apply IH.
  intros b Hb. apply H. now right.
Qed.

Lemma dark_beam_has_no_cells (a : array2) :
  (forall i j, (i < res)%nat -> (j < res)%nat -> a i j = 0) ->
  nonzero_cells a = [].
Proof.
  intro Hdark. unfold nonzero_cells. apply flat_map_nil. intros i Hi.
  apply in_seq in Hi. rewrite filter_nil; [reflexivity |].
  intros j Hj. apply in_seq in Hj.
  destruct (Req_dec_T (a i j) 0) as [_ | Hne]; [reflexivity |].
  elim Hne. apply Hdark; lia.
Qed.

Lemma zoom_window_of_nothing (phase : list R) :
  zoom_window (map fst (@nil (nat * nat)), map snd (@nil (nat * nat))) phase
  = None.
Proof. reflexivity. Qed.

Lemma zoom_extent_of_cells (b0 : array2) (beams : list array2)
  (phase : list R) :
  zoom_extent (b0 :: beams) phase
  = zoom_window (map fst (nonzero_cells b0), map snd (nonzero_cells b0)) phase.
Proof. reflexivity. Qed.

(** X26.  When the first beam field is zero at every cell of the grid
    there is nothing to zoom on: the reduction over the empty index array
    raises, and no window is computed. *)
Theorem zoom_raises_on_dark_beam (b0 : array2) (beams : list array2)
  (phase : list R) :
  (forall i j, (i < res)%nat -> (j < res)%nat -> b0 i j = 0) ->
  zoom_extent (b0 :: beams) phase = None.
Proof.
  intro Hdark.
  rewrite zoom_extent_of_cells, (dark_beam_has_no_cells b0 Hdark).
  apply zoom_window_of_nothing.
Qed.

Lemma zoom_raises_on_dark_beam_witness :
  zoom_extent [zeros_like X] (linspace (-180) 180 res) = None.
Proof.
  apply (zoom_raises_on_dark_beam (zeros_like X) [] (linspace (-180) 180 res)).
  intros i j _ _. reflexivity.
Defined.

(** *** When the window is computed *)

Lemma fold_min_in (t : list nat) :
  forall a, In (fold_left Nat.min t a) (a :: t).
Proof.
  induction t as [| b t IH]; intro a; [now left |].
  cbn [fold_left]. pose proof (IH (Nat.min a b)) as Hm.
  destruct (Nat.min_spec a b) as [[_ E] | [_ E]]; rewrite E in Hm |- *;
    destruct Hm as [Heq | Hin].
  - left. exact Heq.
  - right. right. exact Hin.
  - right. left. exact Heq.
  - right. right. exact Hin.
Qed.

Lemma fold_max_in (t : list nat) :
  forall a, In (fold_left Nat.max t a) (a :: t).
Proof.
  induction t as [| b t IH]; intro a; [now left |].
  cbn [fold_left]. pose proof (IH (Nat.max a b)) as Hm.
  destruct (Nat.max_spec a b) as [[_ E] | [_ E]]; rewrite E in Hm |- *;
    destruct Hm as [Heq | Hin].
  - right. left. exact Heq.
  - right. right. exact Hin.
  - left. exact Heq.
  - right. right. exact Hin.
Qed.

Lemma index_min_some (l : list nat) :
  l <> [] -> exists m, index_min l = Some m /\ In m l.
Proof.
  destruct l as [| a t]; [contradiction |]. intros _.
  exists (fold_left Nat.min t a). split; [reflexivity | apply fold_min_in].
Qed.

Lemma index_max_some (l : list nat) :
  l <> [] -> exists m, index_max l = Some m /\ In m l.
Proof.
  destruct l as [| a t]; [contradiction |]. intros _.
  exists (fold_left Nat.max t a). split; [reflexivity | apply fold_max_in].
Qed.

Lemma nonzero_cells_spec (a : array2) (i j : nat) :
  In (i, j) (nonzero_cells a)
  <-> (i < res)%nat /\ (j < res)%nat /\ a i j <> 0.
Proof.
  unfold nonzero_cells. rewrite in_flat_map. split.
  - intros [i0 [Hi0 Hin]]. apply in_map_iff in Hin as [j0 [Heq Hj0]].
    injection Heq as -> ->. apply filter_In in Hj0 as [Hj0 Hp].
    apply in_seq in Hi0, Hj0.
    destruct (Req_dec_T (a i j) 0); [discriminate |].
    repeat split; [lia | lia | assumption].
  - intros [Hi [Hj Hne]]. exists i. split; [apply in_seq; lia |].
    apply in_map, filter_In. split; [apply in_seq; lia |].
    destruct (Req_dec_T (a i j) 0); [contradiction | reflexivity].
Qed.

(** With a cell to zoom on, all cells on a grid of side [n] and a phase
    array of [n] entries, every reduction and every lookup of lines
    257-264 goes through. *)
Lemma zoom_window_goes_through (cells : list (nat * nat)) (phase : list R)
  (n : nat) :
  length phase = n ->
  cells <> [] ->
  (forall p, In p cells -> (fst p < n)%nat /\ (snd p < n)%nat) ->
  exists w, zoom_window (map fst cells, map snd cells) phase = Some w.
Proof.
  intros Hphase Hne Hgrid.
  assert (forall m, In m (map fst cells) -> (m < n)%nat) as Hrows.
  { intros m Hm. apply in_map_iff in Hm as [p [<- Hp]]. now apply Hgrid. }
  assert (forall m, In m (map snd cells) -> (m < n)%nat) as Hcols.
  { intros m Hm. apply in_map_iff in Hm as [p [<- Hp]]. now apply Hgrid. }
  assert (map fst cells <> []) as Hr
    by (destruct cells; [contradiction | discriminate]).
  assert (map snd cells <> []) as Hc
    by (destruct cells; [contradiction | discriminate]).
  unfold zoom_window, amin_axis0, amax_axis0, amin_axis1, amax_axis1.
  cbn [fst snd]. rewrite combine_fst_snd.
  destruct (index_min_some (map (fun p => Nat.min (fst p) (snd p)) cells))
    as [m0 [-> Hm0]]; [destruct cells; [contradiction | discriminate] |].
  destruct (index_min_some _ Hr) as [r0 [-> Hr0]].
  destruct (index_min_some _ Hc) as [c0 [-> Hc0]].
  destruct (index_max_some (map (fun p => Nat.max (fst p) (snd p)) cells))
    as [m1 [-> Hm1]]; [destruct cells; [contradiction | discriminate] |].
  destruct (index_max_some _ Hr) as [r1 [-> Hr1]].
  destruct (index_max_some _ Hc) as [c1 [-> Hc1]].
  cbn [bind index_min index_max fold_left].
  apply in_map_iff in Hm0 as [p0 [<- Hp0]].
  apply in_map_iff in Hm1 as [p1 [<- Hp1]].
  pose proof (Hgrid _ Hp0) as [Hp0r Hp0c].
  pose proof (Hgrid _ Hp1) as [Hp1r Hp1c].
  pose proof (Hrows _ Hr0). pose proof (Hrows _ Hr1).
  pose proof (Hcols _ Hc0). pose proof (Hcols _ Hc1).
  destruct (nth_error_inside phase (Nat.min (fst p0) (snd p0))) as [v1 ->];
    [lia |].
  destruct (nth_error_inside phase (Nat.max (fst p1) (snd p1))) as [v2 ->];
    [lia |].
  destruct (nth_error_inside phase (Nat.min r0 c0)) as [w1 ->]; [lia |].
  destruct (nth_error_inside phase (Nat.max r1 c1)) as [w2 ->]; [lia |].
  cbn [bind]. eexists. reflexivity.
Qed.

Lemma zoom_extent_goes_through (b0 : array2) (beams : list array2)
  (phase : list R) (i j : nat) :
  length phase = res ->
  (i < res)%nat -> (j < res)%nat -> b0 i j <> 0 ->
  exists w, zoom_extent (b0 :: beams) phase = Some w.
Proof.
  intros Hphase Hi Hj Hlit. rewrite zoom_extent_of_cells.
  apply (zoom_window_goes_through (nonzero_cells b0) phase res Hphase).
  - intro Hnil.
    assert (In (i, j) (nonzero_cells b0)) as Hcell
      by (apply (proj2 (nonzero_cells_spec b0 i j)); auto).
    rewrite Hnil in Hcell. contradiction.
  - intros [r c] Hp. apply (proj1 (nonzero_cells_spec b0 r c)) in Hp.
    cbn [fst snd]. tauto.
Qed.

(** X27.  With a phase array of [res] entries, the zoom window is computed
    exactly when the first beam field has a non-zero cell on the grid. *)
Theorem zoom_computed_iff_beam_lit (b0 : array2) (beams : list array2)
  (phase : list R) :
  length phase = res ->
  (exists w, zoom_extent (b0 :: beams) phase = Some w)
  <-> exists i j, (i < res)%nat /\ (j < res)%nat /\ b0 i j <> 0.
Proof.
  intro Hphase. split.
  - intros [w Hw]. rewrite zoom_extent_of_cells in Hw.
    destruct (nonzero_cells b0) as [| [i j] cells] eqn:Hcells.
    + rewrite zoom_window_of_nothing in Hw. discriminate.
    + exists i, j. apply (proj1 (nonzero_cells_spec b0 i j)).
      rewrite Hcells. now left.
  - intros [i [j [Hi [Hj Hlit]]]].
    exact (zoom_extent_goes_through b0 beams phase i j Hphase Hi Hj Hlit).
Qed.

Lemma zoom_computed_iff_beam_lit_witness :
  (exists w, zoom_extent [fun _ _ => 1] (linspace (-180) 180 res) = Some w)
  <-> exists i j, (i < res)%nat /\ (j < res)%nat /\ (fun _ _ : nat => 1) i j <> 0.
Proof.
  apply (zoom_computed_iff_beam_lit (fun _ _ => 1) [] (linspace (-180) 180 res)).
  unfold linspace. now rewrite length_map, length_seq.
Defined.

Lemma zoom_window_is_square_witness :
  exists x1 x2 y1 y2,
    zoom_extent [fun _ _ => 1] (linspace (-180) 180 res) = Some (x1, x2, y1, y2)
    /\ x1 = y1 /\ x2 = y2.
Proof.
  destruct (zoom_extent_goes_through (fun _ _ => 1) []
              (linspace (-180) 180 res) 0 0) as [[[[x1 x2] y1] y2] Hw].
  - unfold linspace. now rewrite length_map, length_seq.
  - unfold res. lia.
  - unfold res. lia.
  - lra.
  - exists x1, x2, y1, y2. split; [exact Hw |].
    exact (zoom_window_is_square _ _ x1 x2 y1 y2 Hw).
Defined.

End PlotMore.
